(** * The ranking endpoint of [api/rank.js]

    A shallow embedding of the request handler of [api/rank.js] and of the
    functions it is built from, followed by the properties its
    specification states about them.

    Conventions of the embedding:
    - a JavaScript string is the list of its UTF-16 code units ([jsstring]);
    - a timestamp ([Date.now()]) is an integer number of milliseconds, and so
      are the window width and the ceiling of the rate limiter;
    - [rateLimitStore], a [Map] from client keys to arrays of timestamps,
      is a [gmap jsstring (list Z)];
    - the values of request bodies and of upstream replies are JSON values,
      with [JSON.parse] written out as a parser on code units;
    - the handler is written in a small monad of state, early return and
      exceptions; its state is the rate-limit store together with the log
      of the calls made on the reply object, on the rate limiter and on
      [fetch];
    - what an invocation reads from outside (the clock, the credential, the
      behaviour of the upstream) is a parameter, and so is the catalog of
      [recipes-data.js]. *)

From Stdlib Require Import ZArith List Bool String Ascii Lia.
From stdpp Require Import base tactics option list gmap.

Set Warnings "-register-all".
Local Open Scope Z_scope.

(** ** JavaScript strings *)

Module JsString.

Definition jsstring : Type := list N.

(** A literal, written as a Rocq string of ASCII characters. *)
Fixpoint js (s : string) : jsstring :=
  match s with
  | EmptyString => []
  | String c s' => N_of_ascii c :: js s'
  end.

(** A literal in which an apostrophe stands for a double quote. *)
Definition jsq (s : string) : jsstring :=
  map (λ c, if (c =? 39)%N then 34%N else c) (js s).

Definition eqb (a b : jsstring) : bool := bool_decide (a = b).

(** [WhiteSpace] and [LineTerminator] code units, the ones
    [String.prototype.trim] removes. *)
Definition is_trim_space (c : N) : bool :=
  ((9 <=? c) && (c <=? 13) || (c =? 32) || (c =? 160) || (c =? 5760)
   || (8192 <=? c) && (c <=? 8202) || (c =? 8232) || (c =? 8233)
   || (c =? 8239) || (c =? 8287) || (c =? 12288) || (c =? 65279))%N.

Fixpoint trimStart (s : jsstring) : jsstring :=
  match s with
  | c :: s' => if is_trim_space c then trimStart s' else s
  | [] => []
  end.

Definition trimEnd (s : jsstring) : jsstring := rev (trimStart (rev s)).

Definition trim (s : jsstring) : jsstring := trimEnd (trimStart s).

(** [s.split(sep)] for a separator of one code unit: never empty. *)
Fixpoint split (sep : N) (s : jsstring) : list jsstring :=
  match s with
  | [] => [[]]
  | c :: s' =>
      if (c =? sep)%N then [] :: split sep s'
      else match split sep s' with
           | w :: ws => (c :: w) :: ws
           | [] => [[c]]
           end
  end.

(** [a.join(sep)] *)
Fixpoint join (sep : jsstring) (l : list jsstring) : jsstring :=
  match l with
  | [] => []
  | [a] => a
  | a :: l' => a ++ sep ++ join sep l'
  end.

(** Truthiness of a string: non-empty. *)
Definition truthy (s : jsstring) : bool :=
  match s with [] => false | _ => true end.

End JsString.
Import JsString.

(** ** The rate limiter *)

Module RateLimiter.
Section Limiter.

(** [RATE_LIMIT_WINDOW_MS] and [RATE_LIMIT_MAX], read once from the
    environment when the module is loaded. *)
Variable RATE_LIMIT_WINDOW_MS : Z.
Variable RATE_LIMIT_MAX : Z.

Abbreviation store := (gmap jsstring (list Z)).

(** [entries.filter((ts) => now - ts < RATE_LIMIT_WINDOW_MS)] *)
Definition recent_of (now : Z) (entries : list Z) : list Z :=
  filter (λ ts, now - ts < RATE_LIMIT_WINDOW_MS) entries.

(** [takeRateLimitSlot(key, now)], on the store it reads and writes. *)
Definition takeRateLimitSlot (key : jsstring) (now : Z) (st : store)
  : bool * store :=
  let entries := default [] (st !! key) in
  let recent := recent_of now entries in
  if bool_decide (RATE_LIMIT_MAX ≤ Z.of_nat (length recent)) then
    (false, <[key := recent]> st)
  else
    (true, <[key := recent ++ [now]]> st).

(** Successive admission checks of one client key. *)
Fixpoint takeMany (key : jsstring) (times : list Z) (st : store)
  : list bool * store :=
  match times with
  | [] => ([], st)
  | now :: times' =>
      let '(ok, st') := takeRateLimitSlot key now st in
      let '(oks, st'') := takeMany key times' st' in
      (ok :: oks, st'')
  end.

(** The stores the process can be in: the empty [Map] of module load,
    then any sequence of admission checks. *)
Inductive reachable : store → Prop :=
| reachable_init : reachable ∅
| reachable_take st key now :
    reachable st → reachable (takeRateLimitSlot key now st).2.

(** Pairwise, a later call is less than a window after an earlier one. *)
Fixpoint within_one_window (times : list Z) : Prop :=
  match times with
  | [] => True
  | t :: times' =>
      Forall (λ t', t' - t < RATE_LIMIT_WINDOW_MS) times'
      ∧ within_one_window times'
  end.

End Limiter.
End RateLimiter.

(** ** JSON values and [JSON.parse] *)

Module Json.

(** The values [JSON.parse] produces.  A number is kept as the exact
    decimal [m * 10^e] its literal denotes; the handler observes a number
    only through [typeof] and through its truthiness. *)
Inductive json : Type :=
| JNull
| JBool (b : bool)
| JNum (m e : Z)
| JStr (s : jsstring)
| JArr (items : list json)
| JObj (members : list (jsstring * json)).

(** The double nearest to [m * 10^e] is zero: either [m] is zero, or the
    magnitude is at most [2^-1075], half of the least subnormal (the tie
    rounds to the even neighbour, which is zero). *)
Definition num_is_zero (m e : Z) : bool :=
  (m =? 0) || ((e <? 0) && (Z.abs m * 2 ^ 1075 <=? 10 ^ (- e))).

(** ToBoolean *)
Definition truthy (v : json) : bool :=
  match v with
  | JNull => false
  | JBool b => b
  | JNum m e => negb (num_is_zero m e)
  | JStr s => JsString.truthy s
  | JArr _ | JObj _ => true
  end.

(** An own property of an object literal: the last member of that name
    wins. *)
Fixpoint lookup_member (k : jsstring) (members : list (jsstring * json))
  : option json :=
  match members with
  | [] => None
  | (k', v) :: members' =>
      match lookup_member k members' with
      | Some v' => Some v'
      | None => if JsString.eqb k k' then Some v else None
      end
  end.

(** [v.name] on a value that is neither [null] nor [undefined], for the
    names the handler reads ([query], [primary], [secondary], [choices],
    [message], [content]): none of them is defined on a prototype, so
    only an object's own members answer; [None] is [undefined]. *)
Definition get_prop (v : json) (name : jsstring) : option json :=
  match v with
  | JObj members => lookup_member name members
  | _ => None
  end.

(** [v[0]] on a value that is neither [null] nor [undefined]. *)
Definition get_index0 (v : json) : option json :=
  match v with
  | JArr items => head items
  | JStr (c :: _) => Some (JStr [c])
  | JObj members => lookup_member (js "0") members
  | _ => None
  end.

(** *** The parser *)

Definition is_json_ws (c : N) : bool :=
  ((c =? 9) || (c =? 10) || (c =? 13) || (c =? 32))%N.

Fixpoint skip_ws (s : jsstring) : jsstring :=
  match s with
  | c :: s' => if is_json_ws c then skip_ws s' else s
  | [] => []
  end.

(** [s] without the prefix [p], when it starts with it. *)
Fixpoint strip_prefix (p s : jsstring) : option jsstring :=
  match p, s with
  | [], _ => Some s
  | a :: p', c :: s' => if (a =? c)%N then strip_prefix p' s' else None
  | _ :: _, [] => None
  end.

Definition is_digit (c : N) : bool := ((48 <=? c) && (c <=? 57))%N.

Definition hex_val (c : N) : option N :=
  if is_digit c then Some (c - 48)%N
  else if ((97 <=? c) && (c <=? 102))%N then Some (c - 87)%N
  else if ((65 <=? c) && (c <=? 70))%N then Some (c - 55)%N
  else None.

(** The character an escape letter stands for. *)
Definition escape_char (e : N) : option N :=
  if (e =? 34)%N then Some 34%N
  else if (e =? 92)%N then Some 92%N
  else if (e =? 47)%N then Some 47%N
  else if (e =? 98)%N then Some 8%N
  else if (e =? 102)%N then Some 12%N
  else if (e =? 110)%N then Some 10%N
  else if (e =? 114)%N then Some 13%N
  else if (e =? 116)%N then Some 9%N
  else None.

(** The longest prefix of digits, as a number, with its length. *)
Fixpoint take_digits (acc : Z) (n : Z) (s : jsstring) : Z * Z * jsstring :=
  match s with
  | c :: s' =>
      if is_digit c then take_digits (10 * acc + (Z.of_N c - 48)) (n + 1) s'
      else (acc, n, s)
  | [] => (acc, n, s)
  end.

(** A number literal: an optional minus sign; then a single zero or a
    digit from one to nine followed by any digits; then optionally a dot
    and at least one digit; then optionally [e] or [E], an optional sign
    and at least one digit. *)
Definition parse_number (s : jsstring) : option (json * jsstring) :=
  let '(neg, s1) :=
    match s with
    | c :: r => if (c =? 45)%N then (true, r) else (false, s)
    | [] => (false, s)
    end in
  '(i, s2) ←
    match s1 with
    | c :: r =>
        if (c =? 48)%N then Some (0, r)
        else if is_digit c then
          let '(i, _, r') := take_digits 0 0 s1 in Some (i, r')
        else None
    | [] => None
    end;
  '(m, fl, s3) ←
    match s2 with
    | c :: r =>
        if (c =? 46)%N then
          let '(m, fl, r') := take_digits i 0 r in
          if fl =? 0 then None else Some (m, fl, r')
        else Some (i, 0, s2)
    | [] => Some (i, 0, s2)
    end;
  '(x, s4) ←
    match s3 with
    | c :: r =>
        if ((c =? 101) || (c =? 69))%N then
          let '(xneg, r1) :=
            match r with
            | d :: r' =>
                if (d =? 45)%N then (true, r')
                else if (d =? 43)%N then (false, r')
                else (false, r)
            | [] => (false, r)
            end in
          let '(x, xl, r2) := take_digits 0 0 r1 in
          if xl =? 0 then None else Some (if xneg then - x else x, r2)
        else Some (0, s3)
    | [] => Some (0, s3)
    end;
  Some (JNum (if neg then - m else m) (x - fl), s4).

(** The characters of a string literal after its opening quote, up to
    and including the closing quote. *)
Fixpoint parse_string_body (s : jsstring) : option (jsstring * jsstring) :=
  match s with
  | [] => None
  | c :: r =>
      if (c =? 34)%N then Some ([], r)
      else if (c =? 92)%N then
        match r with
        | e :: r1 =>
            if (e =? 117)%N then
              match r1 with
              | h1 :: h2 :: h3 :: h4 :: r' =>
                  match hex_val h1, hex_val h2, hex_val h3, hex_val h4 with
                  | Some a, Some b, Some c', Some d =>
                      '(str, rest) ← parse_string_body r';
                      Some ((4096 * a + 256 * b + 16 * c' + d)%N :: str, rest)
                  | _, _, _, _ => None
                  end
              | _ => None
              end
            else
              c' ← escape_char e;
              '(str, rest) ← parse_string_body r1;
              Some (c' :: str, rest)
        | [] => None
        end
      else if (c <? 32)%N then None
      else '(str, rest) ← parse_string_body r; Some (c :: str, rest)
  end.

(** Recursive descent; [fuel] bounds the number of nested calls. *)
Fixpoint parse_value (fuel : nat) (s : jsstring) : option (json * jsstring) :=
  match fuel with
  | O => None
  | S fuel' =>
      match skip_ws s with
      | [] => None
      | c :: r =>
          if (c =? 34)%N then
            '(str, rest) ← parse_string_body r; Some (JStr str, rest)
          else if (c =? 91)%N then
            match skip_ws r with
            | d :: r' =>
                if (d =? 93)%N then Some (JArr [], r')
                else '(items, rest) ← parse_elements fuel' r; Some (JArr items, rest)
            | [] => None
            end
          else if (c =? 123)%N then
            match skip_ws r with
            | d :: r' =>
                if (d =? 125)%N then Some (JObj [], r')
                else '(members, rest) ← parse_members fuel' r;
                     Some (JObj members, rest)
            | [] => None
            end
          else
            match strip_prefix (js "null") (c :: r) with
            | Some rest => Some (JNull, rest)
            | None =>
                match strip_prefix (js "true") (c :: r) with
                | Some rest => Some (JBool true, rest)
                | None =>
                    match strip_prefix (js "false") (c :: r) with
                    | Some rest => Some (JBool false, rest)
                    | None => parse_number (c :: r)
                    end
                end
            end
      end
  end
with parse_elements (fuel : nat) (s : jsstring) : option (list json * jsstring) :=
  match fuel with
  | O => None
  | S fuel' =>
      '(v, r) ← parse_value fuel' s;
      match skip_ws r with
      | c :: r' =>
          if (c =? 44)%N then
            '(items, rest) ← parse_elements fuel' r'; Some (v :: items, rest)
          else if (c =? 93)%N then Some ([v], r')
          else None
      | [] => None
      end
  end
with parse_members (fuel : nat) (s : jsstring)
  : option (list (jsstring * json) * jsstring) :=
  match fuel with
  | O => None
  | S fuel' =>
      match skip_ws s with
      | q :: r =>
          if (q =? 34)%N then
            '(k, r1) ← parse_string_body r;
            match skip_ws r1 with
            | c :: r2 =>
                if (c =? 58)%N then
                  '(v, r3) ← parse_value fuel' r2;
                  match skip_ws r3 with
                  | d :: r' =>
                      if (d =? 44)%N then
                        '(members, rest) ← parse_members fuel' r';
                        Some ((k, v) :: members, rest)
                      else if (d =? 125)%N then Some ([(k, v)], r')
                      else None
                  | [] => None
                  end
                else None
            | [] => None
            end
          else None
      | [] => None
      end
  end.

(** [JSON.parse(text)]; [None] stands for the [SyntaxError] it throws.
    Twice the length of the text, and two, is fuel enough: more fuel never
    changes the result ([parse_value_fuel]). *)
Definition JSON_parse (text : jsstring) : option json :=
  '(v, rest) ← parse_value (2 * length text + 2) text;
  match skip_ws rest with
  | [] => Some v
  | _ => None
  end.

End Json.
Import Json.

(** ** The handler's world *)

Module Http.

(** What the handler can throw: the [TypeError]s of the engine, the
    [SyntaxError] of a JSON parse, and the rejection of [fetch] or of a
    body read, which carries the message of its cause. *)
Inductive exn : Type :=
| TypeError_not_a_function (name : jsstring)
| TypeError_property_of_null (name : jsstring)
| SyntaxError
| Rejected (message : jsstring).

(** The [details] field of an error payload: a text, or the [message] of
    a caught exception (whose wording is the engine's). *)
Inductive details : Type :=
| RawText (text : jsstring)
| MessageOf (e : exn).

(** The payloads handed to [respond]: [{ error }], [{ error, details }],
    or the parsed ranking itself. *)
Inductive payload : Type :=
| ErrorBody (error : jsstring) (d : option details)
| Parsed (v : json).

(** [fetch(url, init)]: the [init] argument, its body before
    [JSON.stringify]. *)
Record fetch_init : Type := FetchInit {
  init_method : jsstring;
  init_headers : list (jsstring * jsstring);
  init_body : json
}.

(** What the handler reads of the upstream [Response]: its status, and
    its body text unless reading the body fails. *)
Record response : Type := Response {
  status : Z;
  body_text : exn + jsstring
}.

Inductive fetch_result : Type :=
| FetchRejects (e : exn)
| FetchResolves (r : response).

(** [response.ok], as [fetch] defines it: the status is in the range 200
    to 299. *)
Definition ok (r : response) : bool := (200 <=? status r) && (status r <=? 299).

(** A request header: a string, or an array of strings when repeated. *)
Inductive header_value : Type :=
| HString (s : jsstring)
| HArray (l : list jsstring).

Record headers : Type := Headers {
  origin : option jsstring;
  x_forwarded_for : option header_value;
  x_real_ip : option header_value
}.

(** The inbound request: [None] is [undefined].  [req_body] is
    [req.body]; [stream] holds the chunks the ['data'] events deliver
    before ['end']. *)
Record request : Type := Request {
  method : option jsstring;
  req_headers : option headers;
  remoteAddress : option jsstring;
  req_body : option json;
  stream : list jsstring
}.

(** The reply object, by the functions it exposes. *)
Record reply : Type := Reply {
  has_status : bool;
  has_setHeader : bool;
  has_json : bool;
  has_send : bool;
  has_end : bool
}.

(** The calls the handler makes, in order. *)
Inductive event : Type :=
| ResStatus (code : Z)
| ResStatusCode (code : Z)
| ResSetHeader (name value : jsstring)
| ResJson (p : payload)
| ResSend (p : payload)
| ResEnd (p : option payload)
| RateLimitCall (key : jsstring) (now : Z)
| FetchCall (url : jsstring) (init : fetch_init).

(** What one invocation reads from outside the module: the clock, the
    credential of the environment, and the upstream. *)
Record world : Type := World {
  Date_now : Z;
  OPENAI_API_KEY : option jsstring;
  fetch : jsstring → fetch_init → fetch_result
}.

Record recipe : Type := Recipe {
  id : jsstring;
  title : jsstring;
  recipe_details : jsstring
}.

(** The constants of the module: the three values read from the
    environment at load (the two numbers as integers, [ALLOWED_ORIGIN] as
    the empty string when unset), and the catalog of [recipes-data.js]. *)
Record config : Type := Config {
  RATE_LIMIT_WINDOW_MS : Z;
  RATE_LIMIT_MAX : Z;
  ALLOWED_ORIGIN : jsstring;
  RECIPES : list recipe
}.

(** *** The monad: state, early return and exceptions *)

Record state : Type := State {
  rateLimitStore : gmap jsstring (list Z);
  calls : list event
}.

Inductive result (A : Type) : Type :=
| Value (a : A)
| Returned
| Thrown (e : exn).
Arguments Value {A} a.
Arguments Returned {A}.
Arguments Thrown {A} e.

Definition M (A : Type) : Type := state → result A * state.

#[export] Instance M_ret : MRet M := λ A a st, (Value a, st).

#[export] Instance M_bind : MBind M := λ A B f m st,
  match m st with
  | (Value a, st') => f a st'
  | (Returned, st') => (Returned, st')
  | (Thrown e, st') => (Thrown e, st')
  end.

(** [return;] *)
Definition return_ {A} : M A := λ st, (Returned, st).

Definition throw {A} (e : exn) : M A := λ st, (Thrown e, st).

(** [try { m } catch (error) { h error }] *)
Definition try_catch {A} (m : M A) (h : exn → M A) : M A := λ st,
  match m st with
  | (Thrown e, st') => h e st'
  | r => r
  end.

Definition call (ev : event) : M unit := λ st,
  (Value (), State (rateLimitStore st) (calls st ++ [ev])).

(** [if (c) { m }] *)
Definition when (c : bool) (m : M unit) : M unit :=
  if c then m else mret ().

End Http.
Import Http.

(** ** [api/rank.js] *)

Module Rank.

Definition OPENAI_URL : jsstring := js "https://api.openai.com/v1/chat/completions".

(** Truthiness of a value that is a string or [undefined]. *)
Definition truthy_opt (s : option jsstring) : bool :=
  match s with
  | Some s => JsString.truthy s
  | None => false
  end.

Definition truthy_header (h : option header_value) : bool :=
  match h with
  | Some (HString s) => JsString.truthy s
  | Some (HArray _) => true
  | None => false
  end.

(** [ALLOWED_ORIGIN.split(',').map((origin) => origin.trim()).filter(Boolean)] *)
Definition allowedOrigins_of (ALLOWED_ORIGIN : jsstring) : list jsstring :=
  List.filter JsString.truthy (map trim (split 44 ALLOWED_ORIGIN)).

(** Does [s] start with the pattern, given as one test per code unit? *)
Fixpoint starts_with (p : list (N → bool)) (s : jsstring) : bool :=
  match p, s with
  | [], _ => true
  | q :: p', c :: s' => q c && starts_with p' s'
  | _ :: _, [] => false
  end.

(** A letter under the [i] flag: its lower-case or its upper-case code. *)
Definition letter (lower upper : N) (c : N) : bool :=
  ((c =? lower) || (c =? upper))%N.

(** The two alternatives of [/```json|```/gi]. *)
Definition fence : list (N → bool) := [N.eqb 96; N.eqb 96; N.eqb 96].

Definition fence_json : list (N → bool) :=
  fence ++ [letter 106 74; letter 115 83; letter 111 79; letter 110 78].

(** The global replacement by the empty string, left to right: [skip]
    counts the code units of the current match that are still to drop.  At
    each position outside of a match the alternatives are tried in order. *)
Fixpoint replace_fences (skip : nat) (s : jsstring) : jsstring :=
  match s with
  | [] => []
  | c :: s' =>
      match skip with
      | S k => replace_fences k s'
      | O =>
          if starts_with fence_json s then replace_fences 6 s'
          else if starts_with fence s then replace_fences 2 s'
          else c :: replace_fences 0 s'
      end
  end.

(** [raw.replace(/```json|```/gi, '')] *)
Definition strip_fences (s : jsstring) : jsstring := replace_fences 0 s.

(** [req.headers?.['x-forwarded-for'] || req.headers?.['x-real-ip']],
    then the peer address, then ['unknown']. *)
Definition getClientKey (req : request) : jsstring :=
  let forwarded := req_headers req ≫= x_forwarded_for in
  let header :=
    if truthy_header forwarded then forwarded
    else req_headers req ≫= x_real_ip in
  match header with
  | Some (HString (c :: s)) => trim (default [] (head (split 44 (c :: s))))
  | _ =>
      if truthy_opt (remoteAddress req) then default [] (remoteAddress req)
      else js "unknown"
  end.

(** The body as one of three shapes; the caught parse failure and the
    parsed document [null] are the same value. *)
Definition parseBody (req : request) : json :=
  match req_body req with
  | Some (JObj members) => JObj members
  | Some (JArr items) => JArr items
  | Some (JStr s) => default JNull (JSON_parse s)
  | _ =>
      let raw := concat (stream req) in
      if negb (JsString.truthy raw) then JObj []
      else default JNull (JSON_parse raw)
  end.

(** [respond(res, statusCode, payload)].  [ResSend] and [ResEnd] stand for
    the calls with [body], the serialized payload. *)
Definition respond (res : reply) (statusCode : Z) (p : payload) : M unit :=
  (if has_status res then call (ResStatus statusCode)
   else call (ResStatusCode statusCode));;
  when (has_setHeader res)
    (call (ResSetHeader (js "Content-Type") (js "application/json")));;
  if has_json res then call (ResJson p)
  else if has_send res then call (ResSend p)
  else when (has_end res) (call (ResEnd (Some p))).

(** [applyCorsHeaders(res, origin)]: nothing for a falsy origin or a reply
    object without [setHeader]. *)
Definition applyCorsHeaders (res : reply) (origin : option jsstring) : M unit :=
  match origin with
  | Some (c :: o) =>
      when (has_setHeader res)
        (call (ResSetHeader (js "Access-Control-Allow-Origin") (c :: o));;
         call (ResSetHeader (js "Access-Control-Allow-Methods") (js "POST, OPTIONS"));;
         call (ResSetHeader (js "Access-Control-Allow-Headers") (js "Content-Type"));;
         call (ResSetHeader (js "Vary") (js "Origin")))
  | _ => mret ()
  end.

(** [JSON.parse], throwing. *)
Definition JSON_parse_M (text : jsstring) : M json :=
  match JSON_parse text with
  | Some v => mret v
  | None => throw SyntaxError
  end.

(** [v.name]: throws on [null]. *)
Definition member (v : json) (name : jsstring) : M (option json) :=
  match v with
  | JNull => throw (TypeError_property_of_null name)
  | _ => mret (get_prop v name)
  end.

(** [v?.name] and [v?.[0]]: [undefined] on [null] and on [undefined]. *)
Definition opt_member (v : option json) (name : jsstring) : option json :=
  match v with
  | None | Some JNull => None
  | Some v => get_prop v name
  end.

Definition opt_index0 (v : option json) : option json :=
  match v with
  | None | Some JNull => None
  | Some v => get_index0 v
  end.

(** [data?.choices?.[0]?.message?.content] *)
Definition completion_content (data : json) : option json :=
  opt_member (opt_member (opt_index0 (opt_member (Some data) (js "choices")))
                (js "message")) (js "content").

(** [v?.trim()]: only a string has a [trim] to call. *)
Definition opt_trim (v : option json) : M (option jsstring) :=
  match v with
  | None | Some JNull => mret None
  | Some (JStr s) => mret (Some (trim s))
  | Some _ => throw (TypeError_not_a_function (js "trim"))
  end.

(** [(v || '').trim()] *)
Definition or_empty_trim (v : option json) : M jsstring :=
  match v with
  | None => mret (trim [])
  | Some v =>
      if Json.truthy v then
        match v with
        | JStr s => mret (trim s)
        | _ => throw (TypeError_not_a_function (js "trim"))
        end
      else mret (trim [])
  end.

Definition response_text (r : response) : M jsstring :=
  match body_text r with
  | inl e => throw e
  | inr text => mret text
  end.

Definition response_json (r : response) : M json :=
  text ← response_text r; JSON_parse_M text.

Definition is_string (v : option json) : bool :=
  match v with Some (JStr _) => true | _ => false end.

Definition is_array (v : option json) : bool :=
  match v with Some (JArr _) => true | _ => false end.

Definition is_null (v : json) : bool :=
  match v with JNull => true | _ => false end.

Section Handler.

Variable cfg : config.

Definition allowedOrigins : list jsstring := allowedOrigins_of (ALLOWED_ORIGIN cfg).

(** [isOriginAllowed(origin)] *)
Definition isOriginAllowed (origin : option jsstring) : bool :=
  if negb (truthy_opt origin) || (length allowedOrigins =? 0)%nat then true
  else bool_decide (default [] origin ∈ allowedOrigins).

(** [takeRateLimitSlot] on the store of the state; the call is recorded in
    the log. *)
Definition takeRateLimitSlot (key : jsstring) (now : Z) : M bool := λ st,
  let '(admitted, store') :=
    RateLimiter.takeRateLimitSlot
      (RATE_LIMIT_WINDOW_MS cfg) (RATE_LIMIT_MAX cfg) key now (rateLimitStore st) in
  (Value admitted, State store' (calls st ++ [RateLimitCall key now])).

(** [RECIPES.map((recipe) => `${recipe.id} | ${recipe.title} | ${recipe.details}`).join('\n')] *)
Definition recipeContext : jsstring :=
  join [10%N]
    (map (λ r, id r ++ js " | " ++ title r ++ js " | " ++ recipe_details r)
       (RECIPES cfg)).

Definition system_content : jsstring :=
  jsq "You rank recipes from the provided list. Respond with JSON only using this shape: {'primary':'R##','secondary':['R##','R##']}. Choose the closest match for primary and the next two closest for secondary. Never invent new recipes, never summarize.".

Definition chat_payload (userQuery : jsstring) : json :=
  JObj [
    (js "model", JStr (js "gpt-4o-mini"));
    (js "temperature", JNum 2 (-1));
    (js "messages", JArr [
      JObj [(js "role", JStr (js "system"));
            (js "content", JStr system_content)];
      JObj [(js "role", JStr (js "user"));
            (js "content",
             JStr (js "Recipe list:" ++ [10%N] ++ recipeContext ++ [10%N; 10%N]
                   ++ js "User request: " ++ userQuery ++ [10%N]
                   ++ js "Return JSON exactly with the recipe ids."))]])].

(** [await fetch(url, init)]; the call is recorded in the log. *)
Definition do_fetch (w : world) (url : jsstring) (init : fetch_init) : M response :=
  call (FetchCall url init);;
  match fetch w url init with
  | FetchRejects e => throw e
  | FetchResolves r => mret r
  end.

(** The body of the [try] block. *)
Definition ranking_attempt (res : reply) (w : world) (apiKey userQuery : jsstring)
  : M unit :=
  response ← do_fetch w OPENAI_URL
    (FetchInit (js "POST")
       [(js "Content-Type", js "application/json");
        (js "Authorization", js "Bearer " ++ apiKey)]
       (chat_payload userQuery));
  when (negb (ok response))
    (errorMessage ← response_text response;
     respond res (status response)
       (ErrorBody (js "ChatGPT API error.") (Some (RawText errorMessage)));;
     return_);;
  data ← response_json response;
  raw ← opt_trim (completion_content data);
  when (negb (truthy_opt raw))
    (respond res 502 (ErrorBody (js "ChatGPT returned an empty response.") None);;
     return_);;
  let cleaned := trim (strip_fences (default [] raw)) in
  parsed ← try_catch (JSON_parse_M cleaned)
    (λ _, respond res 502
            (ErrorBody (js "Unable to parse ChatGPT ranking response.") None);;
          return_);
  primary ← member parsed (js "primary");
  not_string ← (if negb (is_string primary) then mret true
                else secondary ← member parsed (js "secondary");
                     mret (negb (is_array secondary)));
  when not_string
    (respond res 502 (ErrorBody (js "ChatGPT returned unexpected data.") None);;
     return_);;
  respond res 200 (Parsed parsed).

(** [handler(req, res)].  A result [Returned] or [Value ()] is a promise
    that resolves, [Thrown] one that rejects. *)
Definition handler (req : request) (res : reply) (w : world) : M unit :=
  let origin := req_headers req ≫= origin in
  when (truthy_opt origin && negb (isOriginAllowed origin))
    (respond res 403 (ErrorBody (js "Origin not allowed.") None);;
     return_);;
  when (truthy_opt origin) (applyCorsHeaders res origin);;
  when (bool_decide (method req = Some (js "OPTIONS")))
    ((if has_status res then call (ResStatus 204) else call (ResStatusCode 204));;
     when (has_end res) (call (ResEnd None));;
     return_);;
  when (truthy_opt (method req) && negb (bool_decide (method req = Some (js "POST"))))
    (respond res 405 (ErrorBody (js "Method not allowed. Use POST.") None);;
     return_);;
  let clientKey := getClientKey req in
  let now := Date_now w in
  admitted ← takeRateLimitSlot clientKey now;
  when (negb admitted)
    (respond res 429
       (ErrorBody (js "Rate limit exceeded. Please wait a moment and try again.") None);;
     return_);;
  let parsedBody := parseBody req in
  when (is_null parsedBody)
    (respond res 400 (ErrorBody (js "Invalid JSON body.") None);;
     return_);;
  query ← member parsedBody (js "query");
  userQuery ← or_empty_trim query;
  when (negb (JsString.truthy userQuery))
    (respond res 400 (ErrorBody (js "Query is required.") None);;
     return_);;
  let apiKey := OPENAI_API_KEY w in
  when (negb (truthy_opt apiKey))
    (respond res 500
       (ErrorBody (js "Server misconfiguration: missing OpenAI API key.") None);;
     return_);;
  try_catch (ranking_attempt res w (default [] apiKey) userQuery)
    (λ error,
       respond res 500
         (ErrorBody (js "Unable to complete ranking request.")
            (Some (MessageOf error)))).

End Handler.

(** The state of a fresh process. *)
Definition fresh : state := State ∅ [].

(** The configuration of an empty environment. *)
Definition default_config (recipes : list recipe) : config :=
  Config 60000 5 [] recipes.

End Rank.

(** ** Vocabulary of the statements *)

Module Observations.
Import Rank.

(** What [respond] calls on the reply object. *)
Definition respond_calls (res : reply) (statusCode : Z) (p : payload) : list event :=
  [if has_status res then ResStatus statusCode else ResStatusCode statusCode]
  ++ (if has_setHeader res
      then [ResSetHeader (js "Content-Type") (js "application/json")] else [])
  ++ (if has_json res then [ResJson p]
      else if has_send res then [ResSend p]
      else if has_end res then [ResEnd (Some p)] else []).

(** What [applyCorsHeaders] calls on the reply object. *)
Definition cors_calls (res : reply) (origin : option jsstring) : list event :=
  if truthy_opt origin && has_setHeader res then
    [ResSetHeader (js "Access-Control-Allow-Origin") (default [] origin);
     ResSetHeader (js "Access-Control-Allow-Methods") (js "POST, OPTIONS");
     ResSetHeader (js "Access-Control-Allow-Headers") (js "Content-Type");
     ResSetHeader (js "Vary") (js "Origin")]
  else [].

(** What the [OPTIONS] branch calls on the reply object. *)
Definition no_content_calls (res : reply) : list event :=
  [if has_status res then ResStatus 204 else ResStatusCode 204]
  ++ (if has_end res then [ResEnd None] else []).

Definition is_rate_limit_call (ev : event) : bool :=
  match ev with RateLimitCall _ _ => true | _ => false end.

Definition is_fetch_call (ev : event) : bool :=
  match ev with FetchCall _ _ => true | _ => false end.

(** The status codes set on the reply object, by either setter. *)
Definition statuses (log : list event) : list Z :=
  omap (λ ev, match ev with
              | ResStatus c | ResStatusCode c => Some c
              | _ => None
              end) log.

(** The payloads emitted on the reply object, by any of the writers. *)
Definition payloads (log : list event) : list payload :=
  omap (λ ev, match ev with
              | ResJson p | ResSend p | ResEnd (Some p) => Some p
              | _ => None
              end) log.

Definition origin_of (req : request) : option jsstring :=
  req_headers req ≫= origin.

(** The request gets past the origin check. *)
Definition origin_admitted (cfg : config) (req : request) : bool :=
  negb (truthy_opt (origin_of req) && negb (isOriginAllowed cfg (origin_of req))).

(** The request gets past the method check: no method, or [POST]. *)
Definition method_admitted (req : request) : bool :=
  negb (bool_decide (method req = Some (js "OPTIONS")))
  && negb (truthy_opt (method req)
           && negb (bool_decide (method req = Some (js "POST")))).

(** The admission check of the request's client key at the world's time. *)
Definition rate_check (cfg : config) (req : request) (w : world) (st : state)
  : bool * gmap jsstring (list Z) :=
  RateLimiter.takeRateLimitSlot (RATE_LIMIT_WINDOW_MS cfg) (RATE_LIMIT_MAX cfg)
    (getClientKey req) (Date_now w) (rateLimitStore st).

(** The request reaches the body stage: origin, method and rate limit
    let it through. *)
Definition reaches_body (cfg : config) (req : request) (w : world) (st : state)
  : bool :=
  origin_admitted cfg req && method_admitted req && (rate_check cfg req w st).1.

(** The state when the body stage starts. *)
Definition at_body (cfg : config) (req : request) (res : reply) (w : world)
    (st : state) : state :=
  State (rate_check cfg req w st).2
    (calls st ++ cors_calls res (origin_of req)
     ++ [RateLimitCall (getClientKey req) (Date_now w)]).

(** The trimmed query of a body: [Some] when [(body.query || '').trim()]
    returns, [None] when it throws. *)
Definition query_of (body : json) : option jsstring :=
  match get_prop body (js "query") with
  | None => Some []
  | Some v =>
      if Json.truthy v
      then match v with JStr s => Some (trim s) | _ => None end
      else Some []
  end.

(** The call the handler issues upstream. *)
Definition upstream_init (cfg : config) (apiKey userQuery : jsstring) : fetch_init :=
  FetchInit (js "POST")
    [(js "Content-Type", js "application/json");
     (js "Authorization", js "Bearer " ++ apiKey)]
    (chat_payload cfg userQuery).

Definition upstream_call (cfg : config) (apiKey userQuery : jsstring) : event :=
  FetchCall OPENAI_URL (upstream_init cfg apiKey userQuery).

(** A completion text wrapped in code-fence markers. *)
Definition fenced (t : jsstring) : jsstring :=
  js "```json" ++ [10%N] ++ t ++ [10%N] ++ js "```".

(** An upstream answering every call with the same response. *)
Definition upstream_answers (r : response) : jsstring → fetch_init → fetch_result :=
  λ _ _, FetchResolves r.

(** The body text of a chat completion whose first choice has the given
    value as its message content. *)
Definition completion_body (content : jsstring) : jsstring :=
  jsq "{'choices':[{'message':{'role':'assistant','content':" ++ content ++ js "}}]}".

(** The stages after the rate limiter. *)
Definition body_stages (cfg : config) (req : request) (res : reply) (w : world)
  : M unit :=
  when (is_null (parseBody req))
    (respond res 400 (ErrorBody (js "Invalid JSON body.") None);;
     return_);;
  query ← member (parseBody req) (js "query");
  userQuery ← or_empty_trim query;
  when (negb (JsString.truthy userQuery))
    (respond res 400 (ErrorBody (js "Query is required.") None);;
     return_);;
  when (negb (truthy_opt (OPENAI_API_KEY w)))
    (respond res 500
       (ErrorBody (js "Server misconfiguration: missing OpenAI API key.") None);;
     return_);;
  try_catch (ranking_attempt cfg res w (default [] (OPENAI_API_KEY w)) userQuery)
    (λ error,
       respond res 500
         (ErrorBody (js "Unable to complete ranking request.")
            (Some (MessageOf error)))).

(** The reply of the top-level [catch]. *)
Definition failure_reply (e : exn) : result unit * Z * payload :=
  (Value (), 500,
   ErrorBody (js "Unable to complete ranking request.") (Some (MessageOf e))).

Definition empty_reply : result unit * Z * payload :=
  (Returned, 502, ErrorBody (js "ChatGPT returned an empty response.") None).

(** How the [try] block and its [catch] answer an upstream behaviour: how
    the handler completes, the status code and the payload. *)
Definition upstream_reply (fr : fetch_result) : result unit * Z * payload :=
  match fr with
  | FetchRejects e => failure_reply e
  | FetchResolves r =>
      match body_text r with
      | inl e => failure_reply e
      | inr text =>
          if negb (ok r) then
            (Returned, status r,
             ErrorBody (js "ChatGPT API error.") (Some (RawText text)))
          else
            match JSON_parse text with
            | None => failure_reply SyntaxError
            | Some data =>
                match completion_content data with
                | None | Some JNull => empty_reply
                | Some (JStr content) =>
                    if negb (JsString.truthy (trim content)) then empty_reply
                    else
                      match JSON_parse (trim (strip_fences (trim content))) with
                      | None =>
                          (Returned, 502,
                           ErrorBody (js "Unable to parse ChatGPT ranking response.")
                             None)
                      | Some JNull =>
                          failure_reply (TypeError_property_of_null (js "primary"))
                      | Some parsed =>
                          if is_string (get_prop parsed (js "primary"))
                             && is_array (get_prop parsed (js "secondary"))
                          then (Value (), 200, Parsed parsed)
                          else
                            (Returned, 502,
                             ErrorBody (js "ChatGPT returned unexpected data.") None)
                      end
                | Some _ => failure_reply (TypeError_not_a_function (js "trim"))
                end
            end
      end
  end.

(** Where one invocation ends: the failure points of the pipeline, the
    preflight exit, the uncaught [TypeError] of the query stage, and the
    upstream call with the credential and the query it is made with. *)
Inductive exit : Type :=
| OriginRejected
| Preflight
| MethodNotAllowed
| RateLimited
| InvalidBody
| QueryThrows
| MissingQuery
| ServerMisconfigured
| UpstreamCalled (apiKey userQuery : jsstring).

Definition exit_of (cfg : config) (req : request) (w : world) (st : state) : exit :=
  if negb (origin_admitted cfg req) then OriginRejected
  else if bool_decide (method req = Some (js "OPTIONS")) then Preflight
  else if negb (method_admitted req) then MethodNotAllowed
  else if negb (rate_check cfg req w st).1 then RateLimited
  else if is_null (parseBody req) then InvalidBody
  else
    match query_of (parseBody req) with
    | None => QueryThrows
    | Some userQuery =>
        if negb (JsString.truthy userQuery) then MissingQuery
        else
          match OPENAI_API_KEY w with
          | Some (c :: k) => UpstreamCalled (c :: k) userQuery
          | _ => ServerMisconfigured
          end
    end.

(** The outcome of each exit: how the handler completes, the store and
    the calls it leaves. *)
Definition outcome_of (cfg : config) (req : request) (res : reply) (w : world)
    (st : state) : result unit * state :=
  let cors := cors_calls res (origin_of req) in
  let limiter := RateLimitCall (getClientKey req) (Date_now w) in
  let store' := (rate_check cfg req w st).2 in
  match exit_of cfg req w st with
  | OriginRejected =>
      (Returned,
       State (rateLimitStore st)
         (calls st
          ++ respond_calls res 403 (ErrorBody (js "Origin not allowed.") None)))
  | Preflight =>
      (Returned, State (rateLimitStore st) (calls st ++ cors ++ no_content_calls res))
  | MethodNotAllowed =>
      (Returned,
       State (rateLimitStore st)
         (calls st ++ cors
          ++ respond_calls res 405
               (ErrorBody (js "Method not allowed. Use POST.") None)))
  | RateLimited =>
      (Returned,
       State store'
         (calls st ++ cors ++ [limiter]
          ++ respond_calls res 429
               (ErrorBody
                  (js "Rate limit exceeded. Please wait a moment and try again.")
                  None)))
  | InvalidBody =>
      (Returned,
       State store'
         (calls st ++ cors ++ [limiter]
          ++ respond_calls res 400 (ErrorBody (js "Invalid JSON body.") None)))
  | QueryThrows =>
      (Thrown (TypeError_not_a_function (js "trim")),
       State store' (calls st ++ cors ++ [limiter]))
  | MissingQuery =>
      (Returned,
       State store'
         (calls st ++ cors ++ [limiter]
          ++ respond_calls res 400 (ErrorBody (js "Query is required.") None)))
  | ServerMisconfigured =>
      (Returned,
       State store'
         (calls st ++ cors ++ [limiter]
          ++ respond_calls res 500
               (ErrorBody (js "Server misconfiguration: missing OpenAI API key.")
                  None)))
  | UpstreamCalled apiKey userQuery =>
      let reply :=
        upstream_reply (fetch w OPENAI_URL (upstream_init cfg apiKey userQuery)) in
      (reply.1.1,
       State store'
         (calls st ++ cors ++ [limiter] ++ [upstream_call cfg apiKey userQuery]
          ++ respond_calls res reply.1.2 reply.2))
  end.

End Observations.
Import Observations.
Import Rank.

(** ** Vocabulary of the outcomes *)

Module Outcomes.

(** The calls one invocation adds to the log. *)
Definition new_calls (cfg : config) (req : request) (res : reply) (w : world)
    (st : state) : list event :=
  drop (length (calls st)) (calls (handler cfg req res w st).2).

(** The calls of a request that passed the rate limiter and was answered
    with [respond] before any upstream call. *)
Definition answered_early (cfg : config) (req : request) (res : reply) (w : world)
    (st : state) (statusCode : Z) (p : payload) : state :=
  State (rate_check cfg req w st).2
    (calls st ++ cors_calls res (origin_of req)
     ++ [RateLimitCall (getClientKey req) (Date_now w)]
     ++ respond_calls res statusCode p).

(** The calls of a request answered with [respond] after its upstream
    call. *)
Definition answered_upstream (cfg : config) (req : request) (res : reply)
    (w : world) (st : state) (apiKey userQuery : jsstring) (statusCode : Z)
    (p : payload) : state :=
  State (rate_check cfg req w st).2
    (calls st ++ cors_calls res (origin_of req)
     ++ [RateLimitCall (getClientKey req) (Date_now w)]
     ++ [upstream_call cfg apiKey userQuery]
     ++ respond_calls res statusCode p).

(** [typeof v === 'object'] on a value that is not [null]. *)
Definition is_object (v : json) : bool :=
  match v with JObj _ | JArr _ => true | _ => false end.

(** The request carries neither an object body nor a string body, so the
    body is read from the stream. *)
Definition reads_stream (req : request) : bool :=
  match req_body req with
  | Some (JObj _) | Some (JArr _) | Some (JStr _) => false
  | _ => true
  end.

(** The same request with another method. *)
Definition with_method (m : option jsstring) (req : request) : request :=
  Request m (req_headers req) (remoteAddress req) (req_body req) (stream req).

(** The four headers [applyCorsHeaders] sets. *)
Definition cors_header_names : list jsstring :=
  [js "Access-Control-Allow-Origin"; js "Access-Control-Allow-Methods";
   js "Access-Control-Allow-Headers"; js "Vary"].

Definition header_name (ev : event) : option jsstring :=
  match ev with ResSetHeader name _ => Some name | _ => None end.

(** The declared interface of a ranking result: [primary] is a string and
    [secondary] is a sequence of exactly two strings. *)
Definition conforms (v : json) : bool :=
  is_string (get_prop v (js "primary"))
  && match get_prop v (js "secondary") with
     | Some (JArr [JStr _; JStr _]) => true
     | _ => false
     end.

(** Code units [trim] removes, only. *)
Abbreviation all_space w := (Forall (λ c : N, is_trim_space c = true) w).

(** A code unit no alternative of the fence pattern can match. *)
Abbreviation separator c := (Forall (λ q : N → bool, q c = false) fence_json).

End Outcomes.
Import Outcomes.

(** ** Sample inputs *)

Module Examples.

Definition catalog : list recipe :=
  [Recipe (js "R01") (js "Chicken Soup") (js "classic broth");
   Recipe (js "R02") (js "Veggie Stew") (js "root vegetables")].

Definition cfg0 : config := default_config catalog.

(** A configuration with one allowed origin. *)
Definition cfg1 : config := Config 60000 5 (js "https://app.example") catalog.

(** A reply object exposing every function, and one exposing only
    [setHeader] and [end]. *)
Definition full_reply : reply := Reply true true true true true.
Definition bare_reply : reply := Reply false true false false true.

Definition request_of (m : jsstring) (o : option jsstring) (body : option json)
    (chunks : list jsstring) : request :=
  Request (Some m) (Some (Headers o (Some (HString (js "203.0.113.7, 10.0.0.1"))) None))
    None body chunks.

(** A [POST] without origin whose body the transport left as a string. *)
Definition post (body : jsstring) : request :=
  request_of (js "POST") None (Some (JStr body)) [].

Definition ask : request := post (jsq "{'query':'chicken soup'}").

(** A world with a credential whose upstream answers with the given status
    and body text. *)
Definition world_of (status : Z) (text : jsstring) : world :=
  World 1000 (Some (js "sk-test")) (upstream_answers (Response status (inr text))).

(** A world whose upstream is never reached in the examples that use it. *)
Definition offline (apiKey : option jsstring) : world :=
  World 1000 apiKey (λ _ _, FetchRejects (Rejected (js "fetch failed"))).

End Examples.
Import Examples.

(** ** Vocabulary of the further properties *)

Module Stages.

(** The exits taken before the rate limiter is called. *)
Definition before_limiter (e : exit) : bool :=
  match e with
  | OriginRejected | Preflight | MethodNotAllowed => true
  | _ => false
  end.

(** One line of the recipe list of the prompt. *)
Definition recipe_line (r : recipe) : jsstring :=
  id r ++ js " | " ++ title r ++ js " | " ++ recipe_details r.

(** The code units a fence match can consume: the backtick and the letters
    of [json] in either case. *)
Definition fence_unit (c : N) : bool :=
  ((c =? 96) || letter 106 74 c || letter 115 83 c || letter 111 79 c
   || letter 110 78 c)%N.

(** The exit at the rate limiter. *)
Definition is_rate_limited (e : exit) : bool :=
  match e with RateLimited => true | _ => false end.

(** Successive invocations of the handler in one process, each on the
    state the one before left: the exits taken, and the final state. *)
Fixpoint serve (cfg : config) (jobs : list (request * reply * world)) (st : state)
  : list exit * state :=
  match jobs with
  | [] => ([], st)
  | (req, res, w) :: jobs' =>
      let '(exits, st') := serve cfg jobs' (handler cfg req res w st).2 in
      (exit_of cfg req w st :: exits, st')
  end.

(** The status codes the handler sets by itself. *)
Definition own_status_codes : list Z := [403; 204; 405; 429; 400; 500; 502; 200].

End Stages.
Import Stages.

(** ** The product guard (product-guard.js) *)

Module ProductGuard.

Definition PRODUCT_PASSWORD : jsstring := js "Product0001??".

(** What a click handler does to the page, in order. *)
Inductive effect : Type :=
| PreventDefault
| Prompt (message : jsstring)
| SetLocation (href : jsstring)
| Alert (message : jsstring).

(** [handleProductClick(event)].  [href] is what
    [event.currentTarget.getAttribute("href")] returns and [answer] what
    [window.prompt] returns ([None] for [null]: no attribute, a dismissed
    dialog). *)
Definition handleProductClick (href answer : option jsstring) : list effect :=
  [PreventDefault; Prompt (js "Enter the Product password:")]
  ++ match answer with
     | None => []
     | Some a =>
         if bool_decide (a = PRODUCT_PASSWORD) then
           [SetLocation (if truthy_opt href then default [] href else js "shop.html")]
         else [Alert (js "Incorrect password. Please try again.")]
     end.

End ProductGuard.

(** * Properties *)

(** ** The JSON parser *)

Module JsonFacts.

Lemma skip_ws_length s : (length (skip_ws s) ≤ length s)%nat.
Proof.
  induction s as [| c s IH]; simpl; [lia |].
  destruct (is_json_ws c); simpl; lia.
Qed.

Lemma strip_prefix_length p s rest :
  strip_prefix p s = Some rest → (length rest ≤ length s)%nat.
Proof.
  revert s. induction p as [| a p IH]; intros [| c s]; simpl; try done.
  - intros [= <-]. simpl. lia.
  - intros [= <-]. simpl. lia.
  - destruct (a =? c)%N; [| done]. intros H%IH. lia.
Qed.

Lemma take_digits_length s : ∀ acc n,
  (length (take_digits acc n s).2 ≤ length s)%nat.
Proof.
  induction s as [| c s IH]; intros acc n; simpl; [lia |].
  destruct (is_digit c); simpl; [| lia].
  specialize (IH (10 * acc + (Z.of_N c - 48)) (n + 1)). lia.
Qed.

Lemma parse_number_length s v rest :
  parse_number s = Some (v, rest) → (length rest ≤ length s)%nat.
Proof.
  unfold parse_number.
  set (sign := match s with
               | c :: r => if (c =? 45)%N then (true, r) else (false, s)
               | [] => (false, s)
               end).
  assert (length sign.2 ≤ length s)%nat as Hs1.
  { subst sign. destruct s as [| c r]; simpl; [lia |].
    destruct (c =? 45)%N; simpl; lia. }
  destruct sign as [neg s1]. simpl in Hs1.
  set (int_part := match s1 with
                   | c :: r =>
                       if (c =? 48)%N then Some (0, r)
                       else if is_digit c then
                         let '(i, _, r') := take_digits 0 0 s1 in Some (i, r')
                       else None
                   | [] => None
                   end).
  assert (∀ i s2, int_part = Some (i, s2) → (length s2 ≤ length s1)%nat) as Hs2.
  { subst int_part. intros i s2. destruct s1 as [| c r]; [done |].
    destruct (c =? 48)%N; [intros [= <- <-]; simpl; lia |].
    destruct (is_digit c); [| done].
    pose proof (take_digits_length (c :: r) 0 0) as Hd.
    destruct (take_digits 0 0 (c :: r)) as [[i' n'] r'].
    intros [= <- <-]. exact Hd. }
  destruct int_part as [[i s2] |]; [| done]. specialize (Hs2 i s2 eq_refl).
  cbn [mbind option_bind].
  set (frac := match s2 with
               | c :: r =>
                   if (c =? 46)%N then
                     let '(m, fl, r') := take_digits i 0 r in
                     if fl =? 0 then None else Some (m, fl, r')
                   else Some (i, 0, s2)
               | [] => Some (i, 0, s2)
               end).
  assert (∀ m fl s3, frac = Some (m, fl, s3) → (length s3 ≤ length s2)%nat) as Hs3.
  { subst frac. intros m fl s3. destruct s2 as [| c r]; [by intros [= <- <- <-] |].
    destruct (c =? 46)%N; [| by intros [= <- <- <-]].
    pose proof (take_digits_length r i 0) as Hd.
    destruct (take_digits i 0 r) as [[m' fl'] r'].
    destruct (fl' =? 0); [done |]. intros [= <- <- <-]. simpl in *. lia. }
  destruct frac as [[[m fl] s3] |]; [| done]. specialize (Hs3 m fl s3 eq_refl).
  cbn [mbind option_bind].
  set (expo := match s3 with
               | c :: r =>
                   if ((c =? 101) || (c =? 69))%N then
                     let '(xneg, r1) :=
                       match r with
                       | d :: r' =>
                           if (d =? 45)%N then (true, r')
                           else if (d =? 43)%N then (false, r')
                           else (false, r)
                       | [] => (false, r)
                       end in
                     let '(x, xl, r2) := take_digits 0 0 r1 in
                     if xl =? 0 then None else Some (if xneg then - x else x, r2)
                   else Some (0, s3)
               | [] => Some (0, s3)
               end).
  assert (∀ x s4, expo = Some (x, s4) → (length s4 ≤ length s3)%nat) as Hs4.
  { subst expo. intros x s4. destruct s3 as [| c r]; [by intros [= <- <-] |].
    destruct ((c =? 101) || (c =? 69))%N; [| by intros [= <- <-]].
    set (esign := match r with
                  | d :: r' =>
                      if (d =? 45)%N then (true, r')
                      else if (d =? 43)%N then (false, r')
                      else (false, r)
                  | [] => (false, r)
                  end).
    assert (length esign.2 ≤ length r)%nat as Hr1.
    { subst esign. destruct r as [| d r']; simpl; [lia |].
      destruct (d =? 45)%N; simpl; [lia |]. destruct (d =? 43)%N; simpl; lia. }
    destruct esign as [xneg r1]. simpl in Hr1.
    pose proof (take_digits_length r1 0 0) as Hd.
    destruct (take_digits 0 0 r1) as [[x' xl] r2].
    destruct (xl =? 0); [done |]. intros [= <- <-]. simpl in *. lia. }
  destruct expo as [[x s4] |]; [| done]. specialize (Hs4 x s4 eq_refl).
  cbn [mbind option_bind]. intros [= <- <-]. lia.
Qed.

Lemma parse_string_body_length n : ∀ s str rest,
  (length s ≤ n)%nat →
  parse_string_body s = Some (str, rest) → (length rest < length s)%nat.
Proof.
  induction n as [| n IH]; intros [| c r] str rest Hn; simpl in *; try done; [lia |].
  destruct (c =? 34)%N; [intros [= <- <-]; lia |].
  destruct (c =? 92)%N.
  - destruct r as [| e r1]; [done |].
    destruct (e =? 117)%N.
    + destruct r1 as [| h1 [| h2 [| h3 [| h4 r']]]]; try done.
      destruct (hex_val h1), (hex_val h2), (hex_val h3), (hex_val h4); try done.
      destruct (parse_string_body r') as [[str' rest'] |] eqn:E; [| done].
      apply IH in E; [| simpl in *; lia]. intros [= <- <-]. simpl in *. lia.
    + destruct (escape_char e); [| done]. cbn [mbind option_bind].
      destruct (parse_string_body r1) as [[str' rest'] |] eqn:E; [| done].
      apply IH in E; [| simpl in *; lia]. intros [= <- <-]. simpl in *. lia.
  - destruct (c <? 32)%N; [done |].
    destruct (parse_string_body r) as [[str' rest'] |] eqn:E; [| done].
    apply IH in E; [| lia]. intros [= <- <-]. lia.
Qed.

(** What the three parsers leave is never longer than what they got. *)
Lemma parse_length fuel :
  (∀ s v rest, parse_value fuel s = Some (v, rest) → (length rest ≤ length s)%nat)
  ∧ (∀ s l rest, parse_elements fuel s = Some (l, rest) → (length rest ≤ length s)%nat)
  ∧ (∀ s l rest, parse_members fuel s = Some (l, rest) → (length rest ≤ length s)%nat).
Proof.
  induction fuel as [| fuel (IHv & IHe & IHm)]; [by repeat split |].
  split; [| split].
  - intros s v rest. cbn [parse_value].
    pose proof (skip_ws_length s) as Hs.
    destruct (skip_ws s) as [| c r]; [done |]. simpl in Hs.
    destruct (c =? 34)%N.
    { destruct (parse_string_body r) as [[str rest'] |] eqn:E; [| done].
      apply (parse_string_body_length (length r)) in E; [| lia].
      intros [= <- <-]. lia. }
    destruct (c =? 91)%N.
    { pose proof (skip_ws_length r) as Hr.
      destruct (skip_ws r) as [| d r']; [done |]. simpl in Hr.
      destruct (d =? 93)%N; [intros [= <- <-]; lia |].
      destruct (parse_elements fuel r) as [[items rest'] |] eqn:E; [| done].
      apply IHe in E. intros [= <- <-]. lia. }
    destruct (c =? 123)%N.
    { pose proof (skip_ws_length r) as Hr.
      destruct (skip_ws r) as [| d r']; [done |]. simpl in Hr.
      destruct (d =? 125)%N; [intros [= <- <-]; lia |].
      destruct (parse_members fuel r) as [[members rest'] |] eqn:E; [| done].
      apply IHm in E. intros [= <- <-]. lia. }
    destruct (strip_prefix (js "null") (c :: r)) as [rest' |] eqn:E1.
    { apply strip_prefix_length in E1. intros [= <- <-]. simpl in *. lia. }
    destruct (strip_prefix (js "true") (c :: r)) as [rest' |] eqn:E2.
    { apply strip_prefix_length in E2. intros [= <- <-]. simpl in *. lia. }
    destruct (strip_prefix (js "false") (c :: r)) as [rest' |] eqn:E3.
    { apply strip_prefix_length in E3. intros [= <- <-]. simpl in *. lia. }
    intros H%parse_number_length. simpl in *. lia.
  - intros s l rest. cbn [parse_elements].
    destruct (parse_value fuel s) as [[v r] |] eqn:E; [| done].
    apply IHv in E. cbn [mbind option_bind].
    pose proof (skip_ws_length r) as Hr.
    destruct (skip_ws r) as [| c r']; [done |]. simpl in Hr.
    destruct (c =? 44)%N.
    { destruct (parse_elements fuel r') as [[items rest'] |] eqn:E'; [| done].
      apply IHe in E'. intros [= <- <-]. lia. }
    destruct (c =? 93)%N; [| done]. intros [= <- <-]. lia.
  - intros s l rest. cbn [parse_members].
    pose proof (skip_ws_length s) as Hs.
    destruct (skip_ws s) as [| q r]; [done |]. simpl in Hs.
    destruct (q =? 34)%N; [| done].
    destruct (parse_string_body r) as [[k r1] |] eqn:Ek; [| done].
    apply (parse_string_body_length (length r)) in Ek; [| lia].
    cbn [mbind option_bind].
    pose proof (skip_ws_length r1) as Hr1.
    destruct (skip_ws r1) as [| c r2]; [done |]. simpl in Hr1.
    destruct (c =? 58)%N; [| done].
    destruct (parse_value fuel r2) as [[v r3] |] eqn:E; [| done].
    apply IHv in E. cbn [mbind option_bind].
    pose proof (skip_ws_length r3) as Hr3.
    destruct (skip_ws r3) as [| d r']; [done |]. simpl in Hr3.
    destruct (d =? 44)%N.
    { destruct (parse_members fuel r') as [[members rest'] |] eqn:E'; [| done].
      apply IHm in E'. intros [= <- <-]. lia. }
    destruct (d =? 125)%N; [| done]. intros [= <- <-]. lia.
Qed.

(** Enough fuel: from twice the length of the input on, more fuel does not
    change what the parsers return. *)
Lemma parse_fuel fuel :
  (∀ s fuel', (2 * length s + 1 ≤ fuel)%nat → (fuel ≤ fuel')%nat →
     parse_value fuel' s = parse_value fuel s)
  ∧ (∀ s fuel', (2 * length s + 2 ≤ fuel)%nat → (fuel ≤ fuel')%nat →
       parse_elements fuel' s = parse_elements fuel s)
  ∧ (∀ s fuel', (2 * length s + 1 ≤ fuel)%nat → (fuel ≤ fuel')%nat →
       parse_members fuel' s = parse_members fuel s).
Proof.
  induction fuel as [| fuel (IHv & IHe & IHm)]; [repeat split; intros; lia |].
  split; [| split].
  - intros s [| fuel'] Hs Hf; [lia |]. cbn [parse_value].
    pose proof (skip_ws_length s) as Hl.
    destruct (skip_ws s) as [| c r]; [done |]. simpl in Hl.
    destruct (c =? 34)%N; [done |].
    destruct (c =? 91)%N.
    { destruct (skip_ws r) as [| d r']; [done |].
      destruct (d =? 93)%N; [done |]. rewrite (IHe r fuel') by lia. done. }
    destruct (c =? 123)%N; [| done].
    destruct (skip_ws r) as [| d r']; [done |].
    destruct (d =? 125)%N; [done |]. rewrite (IHm r fuel') by lia. done.
  - intros s [| fuel'] Hs Hf; [lia |]. cbn [parse_elements].
    rewrite (IHv s fuel') by lia.
    destruct (parse_value fuel s) as [[v r] |] eqn:E; [| done].
    apply (proj1 (parse_length fuel)) in E. cbn [mbind option_bind].
    pose proof (skip_ws_length r) as Hr.
    destruct (skip_ws r) as [| c r']; [done |]. simpl in Hr.
    destruct (c =? 44)%N; [| done]. rewrite (IHe r' fuel') by lia. done.
  - intros s [| fuel'] Hs Hf; [lia |]. cbn [parse_members].
    pose proof (skip_ws_length s) as Hl.
    destruct (skip_ws s) as [| q r]; [done |]. simpl in Hl.
    destruct (q =? 34)%N; [| done].
    destruct (parse_string_body r) as [[k r1] |] eqn:Ek; [| done].
    apply (parse_string_body_length (length r)) in Ek; [| lia].
    cbn [mbind option_bind].
    pose proof (skip_ws_length r1) as Hr1.
    destruct (skip_ws r1) as [| c r2]; [done |]. simpl in Hr1.
    destruct (c =? 58)%N; [| done].
    rewrite (IHv r2 fuel') by lia.
    destruct (parse_value fuel r2) as [[v r3] |] eqn:E; [| done].
    apply (proj1 (parse_length fuel)) in E. cbn [mbind option_bind].
    pose proof (skip_ws_length r3) as Hr3.
    destruct (skip_ws r3) as [| d r']; [done |]. simpl in Hr3.
    destruct (d =? 44)%N; [| done]. rewrite (IHm r' fuel') by lia. done.
Qed.

(** [JSON_parse] gives its parser enough fuel. *)
Lemma parse_value_fuel text n :
  parse_value (2 * length text + 2 + n) text = parse_value (2 * length text + 2) text.
Proof. apply (proj1 (parse_fuel (2 * length text + 2))); lia. Qed.

End JsonFacts.

(** ** The rate limiter *)

Module RateLimiterFacts.
Import RateLimiter.

Section Facts.

Variables W C : Z.

Local Abbreviation take := (takeRateLimitSlot W C).
Local Abbreviation recent := (recent_of W).

Lemma take_denied key now st :
  C ≤ Z.of_nat (length (recent now (default [] (st !! key)))) →
  take key now st = (false, <[key := recent now (default [] (st !! key))]> st).
Proof. intros H. unfold takeRateLimitSlot. by rewrite bool_decide_eq_true_2. Qed.

Lemma take_admitted key now st :
  Z.of_nat (length (recent now (default [] (st !! key)))) < C →
  take key now st
  = (true, <[key := recent now (default [] (st !! key)) ++ [now]]> st).
Proof.
  intros H. unfold takeRateLimitSlot. rewrite bool_decide_eq_false_2; [done | lia].
Qed.

Lemma take_denied_iff key now st :
  (take key now st).1 = false
  ↔ C ≤ Z.of_nat (length (recent now (default [] (st !! key)))).
Proof.
  unfold takeRateLimitSlot. case_bool_decide; simpl; split; intros; done || lia.
Qed.

Lemma take_other key key' now st :
  key ≠ key' → (take key now st).2 !! key' = st !! key'.
Proof.
  intros Hne. unfold takeRateLimitSlot.
  case_bool_decide; simpl; by rewrite lookup_insert_ne.
Qed.

(** The stored lists never grow beyond the ceiling. *)
Lemma reachable_length st :
  reachable W C st →
  ∀ key l, st !! key = Some l → Z.of_nat (length l) ≤ Z.max 0 C.
Proof.
  induction 1 as [| st key now Hst IH]; intros key' l.
  - by rewrite lookup_empty.
  - destruct (decide (key = key')) as [<- | Hne].
    + assert (Z.of_nat (length (default [] (st !! key))) ≤ Z.max 0 C) as Hold.
      { destruct (st !! key) as [l0 |] eqn:E; simpl; [by eapply IH | lia]. }
      pose proof (length_filter (λ ts, now - ts < W) (default [] (st !! key))) as Hle.
      unfold takeRateLimitSlot, recent_of.
      case_bool_decide; simpl; rewrite lookup_insert_eq; intros [= <-].
      * lia.
      * rewrite length_app. simpl. lia.
    + rewrite take_other; [apply IH | done].
Qed.

(** A burst of calls on one key, each later call within a window of each
    earlier one and of every stored timestamp. *)
Lemma takeMany_burst key times : ∀ st,
  Forall (λ ts, Forall (λ t, t - ts < W) times) (default [] (st !! key)) →
  within_one_window W times →
  (takeMany W C key times st).1
  = map (λ i, bool_decide (Z.of_nat (length (default [] (st !! key)) + i) < C))
      (seq 0 (length times)).
Proof.
  induction times as [| now times IH]; intros st Hold Hwin; [done |].
  destruct Hwin as [Hnow Hwin].
  set (l := default [] (st !! key)) in *.
  assert (recent now l = l) as Hrec.
  { unfold recent_of. clearbody l. induction l as [| ts l IHl]; [done |].
    apply Forall_cons in Hold as [Hts Hold].
    apply Forall_cons in Hts as [Hts _].
    rewrite filter_cons_True; [| done]. by rewrite IHl. }
  assert (Forall (λ ts, Forall (λ t, t - ts < W) times) l) as Hold'.
  { eapply Forall_impl; [exact Hold |]. intros ts Hts.
    by apply Forall_cons in Hts as [_ ?]. }
  cbn [takeMany length seq map].
  destruct (decide (Z.of_nat (length l) < C)) as [Hlt | Hge].
  - rewrite take_admitted; [| fold l; rewrite Hrec; done].
    fold l. rewrite Hrec.
    specialize (IH (<[key := l ++ [now]]> st)).
    rewrite lookup_insert_eq in IH. simpl in IH.
    destruct (takeMany W C key times (<[key:=l ++ [now]]> st)) as [oks st''].
    simpl in *. f_equal.
    + rewrite Nat.add_0_r. by rewrite bool_decide_eq_true_2.
    + rewrite IH; [| by apply Forall_app; split; [| apply Forall_singleton] | done].
      rewrite <- seq_shift, map_map. apply map_ext. intros i.
      rewrite length_app. simpl. by replace (length l + 1 + i)%nat with (length l + S i)%nat by lia.
  - rewrite take_denied; [| fold l; rewrite Hrec; lia].
    fold l. rewrite Hrec.
    specialize (IH (<[key := l]> st)).
    rewrite lookup_insert_eq in IH. simpl in IH.
    destruct (takeMany W C key times (<[key:=l]> st)) as [oks st''].
    simpl in *. f_equal.
    + rewrite Nat.add_0_r. by rewrite bool_decide_eq_false_2.
    + rewrite IH; [| done | done].
      rewrite <- seq_shift, map_map. apply map_ext. intros i.
      rewrite !bool_decide_eq_false_2; [done | lia | lia].
Qed.

(** A stored timestamp outside of the window frees a slot. *)
Lemma take_resumes key now st l ts :
  reachable W C st → st !! key = Some l → ts ∈ l → W ≤ now - ts →
  (take key now st).1 = true.
Proof.
  intros Hst Hl Hin Hout.
  pose proof (reachable_length st Hst key l Hl) as Hlen.
  pose proof (length_filter_lt (λ t, now - t < W) l ts Hin) as Hlt.
  rewrite take_admitted; [done |].
  rewrite Hl. simpl. unfold recent_of.
  assert (length l ≠ 0%nat) by (destruct l; [by apply elem_of_nil in Hin | done]).
  lia.
Qed.

End Facts.
End RateLimiterFacts.

(** ** Running the handler *)

Module HandlerFacts.
Import Rank.

Lemma respond_run res statusCode p st :
  respond res statusCode p st
  = (Value (), State (rateLimitStore st) (calls st ++ respond_calls res statusCode p)).
Proof.
  destruct st as [store log]. unfold respond, respond_calls, when, mbind, M_bind, call.
  destruct (has_status res), (has_setHeader res), (has_json res), (has_send res),
    (has_end res); simpl; rewrite <- ?app_assoc, ?app_nil_r; reflexivity.
Qed.

Lemma cors_run res origin st :
  when (truthy_opt origin) (applyCorsHeaders res origin) st
  = (Value (), State (rateLimitStore st) (calls st ++ cors_calls res origin)).
Proof.
  destruct st as [store log]. unfold when, applyCorsHeaders, cors_calls.
  destruct origin as [[| c o] |]; simpl; rewrite ?app_nil_r; try reflexivity.
  destruct (has_setHeader res); simpl; rewrite ?app_nil_r; try reflexivity.
  unfold mbind, M_bind, call. simpl. rewrite <- !app_assoc. reflexivity.
Qed.

Lemma no_content_run res st :
  ((if has_status res then call (ResStatus 204) else call (ResStatusCode 204));;
   when (has_end res) (call (ResEnd None));; return_ (A := unit)) st
  = (Returned, State (rateLimitStore st) (calls st ++ no_content_calls res)).
Proof.
  destruct st as [store log]. unfold no_content_calls, when, mbind, M_bind, call, return_.
  destruct (has_status res), (has_end res); simpl;
    rewrite <- ?app_assoc, ?app_nil_r; reflexivity.
Qed.

Lemma bind_run {A B} (m : M A) (k : A → M B) st :
  (m ≫= k) st
  = match m st with
    | (Value a, st') => k a st'
    | (Returned, st') => (Returned, st')
    | (Thrown e, st') => (Thrown e, st')
    end.
Proof.
  change ((m ≫= k) st) with (M_bind _ _ k m st). unfold M_bind.
  destruct (m st) as [[] ?]; reflexivity.
Qed.

Lemma ret_bind {A B} (a : A) (k : A → M B) st : (mret a ≫= k) st = k a st.
Proof. reflexivity. Qed.

Lemma throw_bind {A B} (e : exn) (k : A → M B) st :
  (throw e ≫= k) st = (Thrown e, st).
Proof. reflexivity. Qed.

Lemma call_bind {B} ev (k : unit → M B) st :
  (call ev ≫= k) st = k () (State (rateLimitStore st) (calls st ++ [ev])).
Proof. reflexivity. Qed.

Lemma respond_bind {B} res statusCode p (k : unit → M B) st :
  (respond res statusCode p ≫= k) st
  = k () (State (rateLimitStore st) (calls st ++ respond_calls res statusCode p)).
Proof. rewrite bind_run, respond_run. reflexivity. Qed.

Lemma bind_assoc {A B D} (m : M A) (k1 : A → M B) (k2 : B → M D) st :
  ((m ≫= k1) ≫= k2) st = (m ≫= λ a, k1 a ≫= k2) st.
Proof. rewrite !bind_run. destruct (m st) as [[] ?]; reflexivity. Qed.

Lemma when_true_bind {B} (m : M unit) (k : unit → M B) st :
  (when true m ≫= k) st = (m ≫= k) st.
Proof. reflexivity. Qed.

Lemma try_catch_run {A} (m : M A) (h : exn → M A) st :
  try_catch m h st
  = match m st with
    | (Thrown e, st') => h e st'
    | r => r
    end.
Proof. reflexivity. Qed.

Lemma JSON_parse_bind {B} text (k : json → M B) st :
  (JSON_parse_M text ≫= k) st
  = match JSON_parse text with
    | Some v => k v st
    | None => (Thrown SyntaxError, st)
    end.
Proof. unfold JSON_parse_M. destruct (JSON_parse text); reflexivity. Qed.

Lemma respond_return_run {A} res statusCode p st :
  (respond res statusCode p;; return_ (A := A)) st
  = (Returned, State (rateLimitStore st) (calls st ++ respond_calls res statusCode p)).
Proof. rewrite bind_run, respond_run. reflexivity. Qed.

Lemma JSON_parse_or_exit {B} text res statusCode p (k : json → M B) st :
  (try_catch (JSON_parse_M text) (λ _, respond res statusCode p;; return_) ≫= k) st
  = match JSON_parse text with
    | Some v => k v st
    | None =>
        (Returned,
         State (rateLimitStore st) (calls st ++ respond_calls res statusCode p))
    end.
Proof.
  rewrite bind_run, try_catch_run. unfold JSON_parse_M.
  destruct (JSON_parse text); [reflexivity |].
  unfold throw. cbv beta iota. rewrite respond_return_run. reflexivity.
Qed.

Lemma when_false_bind {B} (m : M unit) (k : unit → M B) st :
  (when false m ≫= k) st = k () st.
Proof. reflexivity. Qed.

Lemma respond_exit {B} res statusCode p (k : unit → M B) st :
  (when true (respond res statusCode p;; return_) ≫= k) st
  = (Returned, State (rateLimitStore st) (calls st ++ respond_calls res statusCode p)).
Proof.
  unfold when. change ((?m ≫= k) st) with (M_bind _ _ k m st).
  unfold M_bind. rewrite respond_return_run. reflexivity.
Qed.

Lemma cors_bind {B} res origin (k : unit → M B) st :
  (when (truthy_opt origin) (applyCorsHeaders res origin) ≫= k) st
  = k () (State (rateLimitStore st) (calls st ++ cors_calls res origin)).
Proof.
  change ((?m ≫= k) st) with (M_bind _ _ k m st).
  unfold M_bind. rewrite cors_run. reflexivity.
Qed.

Lemma no_content_exit {B} res (k : unit → M B) st :
  (when true
     ((if has_status res then call (ResStatus 204) else call (ResStatusCode 204));;
      when (has_end res) (call (ResEnd None));; return_) ≫= k) st
  = (Returned, State (rateLimitStore st) (calls st ++ no_content_calls res)).
Proof.
  unfold when at 1. change ((?m ≫= k) st) with (M_bind _ _ k m st).
  unfold M_bind at 1. rewrite no_content_run. reflexivity.
Qed.

Lemma rate_bind {B} cfg key now (k : bool → M B) st :
  (takeRateLimitSlot cfg key now ≫= k) st
  = k (RateLimiter.takeRateLimitSlot (RATE_LIMIT_WINDOW_MS cfg) (RATE_LIMIT_MAX cfg)
         key now (rateLimitStore st)).1
      (State
         (RateLimiter.takeRateLimitSlot (RATE_LIMIT_WINDOW_MS cfg) (RATE_LIMIT_MAX cfg)
            key now (rateLimitStore st)).2
         (calls st ++ [RateLimitCall key now])).
Proof.
  change ((?m ≫= k) st) with (M_bind _ _ k m st).
  unfold M_bind, takeRateLimitSlot.
  destruct (RateLimiter.takeRateLimitSlot _ _ _ _ _). reflexivity.
Qed.

Ltac run :=
  repeat first
    [ rewrite bind_assoc
    | rewrite ret_bind
    | rewrite throw_bind
    | rewrite call_bind
    | rewrite when_false_bind
    | rewrite respond_exit
    | rewrite when_true_bind
    | rewrite respond_bind
    | rewrite respond_return_run
    | rewrite respond_run ].

Ltac finish :=
  cbn [fst snd failure_reply empty_reply rateLimitStore calls];
  rewrite <- ?app_assoc; reflexivity.

Lemma handler_origin_rejected cfg req res w st:
  origin_admitted cfg req = false →
  handler cfg req res w st
  = (Returned,
     State (rateLimitStore st)
       (calls st ++ respond_calls res 403 (ErrorBody (js "Origin not allowed.") None))).
Proof.
  intros H. apply negb_false_iff in H.
  unfold handler. fold (origin_of req). rewrite H.
  apply respond_exit.
Qed.

Lemma handler_options cfg req res w st :
  origin_admitted cfg req = true →
  method req = Some (js "OPTIONS") →
  handler cfg req res w st
  = (Returned,
     State (rateLimitStore st)
       (calls st ++ cors_calls res (origin_of req) ++ no_content_calls res)).
Proof.
  intros H Hm. apply negb_true_iff in H.
  unfold handler. fold (origin_of req). rewrite H, Hm.
  rewrite (bool_decide_eq_true_2 (Some (js "OPTIONS") = Some (js "OPTIONS")))
    by reflexivity.
  rewrite when_false_bind, cors_bind, no_content_exit.
  simpl. rewrite <- app_assoc. reflexivity.
Qed.

Lemma method_admitted_spec req :
  method_admitted req = true →
  bool_decide (method req = Some (js "OPTIONS")) = false
  ∧ truthy_opt (method req) && negb (bool_decide (method req = Some (js "POST"))) = false.
Proof.
  unfold method_admitted. intros [H1 H2]%andb_true_iff.
  apply negb_true_iff in H1, H2. done.
Qed.

Lemma handler_method_rejected cfg req res w st :
  origin_admitted cfg req = true →
  method req ≠ Some (js "OPTIONS") →
  truthy_opt (method req) = true →
  method req ≠ Some (js "POST") →
  handler cfg req res w st
  = (Returned,
     State (rateLimitStore st)
       (calls st ++ cors_calls res (origin_of req)
        ++ respond_calls res 405 (ErrorBody (js "Method not allowed. Use POST.") None))).
Proof.
  intros H Ho Hm Hp. apply negb_true_iff in H.
  unfold handler. fold (origin_of req). rewrite H, Hm.
  rewrite !bool_decide_eq_false_2 by done.
  rewrite when_false_bind, cors_bind, when_false_bind. simpl (_ && _).
  rewrite respond_exit. simpl. rewrite <- app_assoc. reflexivity.
Qed.

Lemma handler_rate_limited cfg req res w st :
  origin_admitted cfg req = true →
  method_admitted req = true →
  (rate_check cfg req w st).1 = false →
  handler cfg req res w st
  = (Returned,
     State (rate_check cfg req w st).2
       (calls st ++ cors_calls res (origin_of req)
        ++ [RateLimitCall (getClientKey req) (Date_now w)]
        ++ respond_calls res 429
             (ErrorBody (js "Rate limit exceeded. Please wait a moment and try again.")
                None))).
Proof.
  intros H [Ho Hm]%method_admitted_spec Hr. apply negb_true_iff in H.
  unfold handler. fold (origin_of req). rewrite H, Ho, Hm.
  rewrite when_false_bind, cors_bind, !when_false_bind, rate_bind.
  unfold rate_check in *. simpl (rateLimitStore _). rewrite Hr. simpl negb.
  rewrite respond_exit. simpl. rewrite <- !app_assoc. reflexivity.
Qed.

Lemma handler_reaches_body cfg req res w st :
  reaches_body cfg req w st = true →
  handler cfg req res w st = body_stages cfg req res w (at_body cfg req res w st).
Proof.
  unfold reaches_body.
  intros [[H [Ho Hm]%method_admitted_spec]%andb_true_iff Hr]%andb_true_iff.
  apply negb_true_iff in H.
  unfold handler. fold (origin_of req). rewrite H, Ho, Hm.
  rewrite when_false_bind, cors_bind, !when_false_bind, rate_bind.
  unfold rate_check in *. simpl (rateLimitStore _). rewrite Hr. simpl negb.
  rewrite when_false_bind. unfold at_body, rate_check. simpl (calls _).
  rewrite <- !app_assoc. reflexivity.
Qed.

Lemma attempt_run cfg res w apiKey userQuery st :
  let fr := fetch w OPENAI_URL (upstream_init cfg apiKey userQuery) in
  try_catch (ranking_attempt cfg res w apiKey userQuery)
    (λ error,
       respond res 500
         (ErrorBody (js "Unable to complete ranking request.")
            (Some (MessageOf error)))) st
  = ((upstream_reply fr).1.1,
     State (rateLimitStore st)
       (calls st ++ [upstream_call cfg apiKey userQuery]
        ++ respond_calls res (upstream_reply fr).1.2 (upstream_reply fr).2)).
Proof.
  intros fr. rewrite try_catch_run. unfold ranking_attempt, do_fetch.
  run. fold (upstream_init cfg apiKey userQuery).
  fold (upstream_call cfg apiKey userQuery). fold fr.
  unfold upstream_reply.
  destruct fr as [e | r]; [run; finish |].
  run. unfold response_json, response_text.
  destruct (body_text r) as [e | text]; [destruct (ok r); simpl negb; run; finish |].
  destruct (ok r); simpl negb; [| run; finish].
  run. rewrite JSON_parse_bind.
  destruct (JSON_parse text) as [data |]; [| run; finish].
  run. fold (completion_content data).
  destruct (completion_content data) as [[| b | m e | content | items | members] |];
    simpl opt_trim; run; simpl negb; run; try finish.
  simpl truthy_opt. simpl (default _ _).
  destruct (JsString.truthy (trim content)); simpl negb; run; [| finish].
  rewrite JSON_parse_or_exit.
  destruct (JSON_parse (trim (strip_fences (trim content)))) as [parsed |];
    [| finish].
  destruct parsed as [| b | m e | s | items | members]; cbn [member]; run;
    try finish.
  all: match goal with
       | |- context [is_string (get_prop ?v ?name)] =>
           generalize (get_prop v name); intros primary
       end.
  all: match goal with
       | |- context [is_array (get_prop ?v ?name)] =>
           generalize (get_prop v name); intros secondary
       end.
  all: destruct (is_string primary); simpl negb; simpl andb; cbv beta iota; run;
    try finish.
  all: destruct (is_array secondary); simpl negb; cbv beta iota; run; finish.
Qed.

Lemma query_bind {B} body (k : jsstring → M B) st :
  is_null body = false →
  (member body (js "query") ≫= λ query, or_empty_trim query ≫= k) st
  = match query_of body with
    | Some q => k q st
    | None => (Thrown (TypeError_not_a_function (js "trim")), st)
    end.
Proof.
  intros Hn.
  assert (member body (js "query") = mret (get_prop body (js "query"))) as ->
    by by destruct body.
  rewrite ret_bind. unfold query_of, or_empty_trim.
  destruct (get_prop body (js "query")) as [v |]; [| reflexivity].
  destruct (Json.truthy v); [| reflexivity].
  destruct v; reflexivity.
Qed.

Section Body.
Variables (cfg : config) (req : request) (res : reply) (w : world) (st : state).

Lemma body_invalid :
  is_null (parseBody req) = true →
  body_stages cfg req res w st
  = (Returned,
     State (rateLimitStore st)
       (calls st ++ respond_calls res 400 (ErrorBody (js "Invalid JSON body.") None))).
Proof. intros H. unfold body_stages. rewrite H. apply respond_exit. Qed.

Lemma body_throws :
  is_null (parseBody req) = false →
  query_of (parseBody req) = None →
  body_stages cfg req res w st = (Thrown (TypeError_not_a_function (js "trim")), st).
Proof.
  intros H Hq. unfold body_stages. rewrite H, when_false_bind, query_bind by done. rewrite Hq.
  reflexivity.
Qed.

Lemma body_query_required q :
  is_null (parseBody req) = false →
  query_of (parseBody req) = Some q →
  JsString.truthy q = false →
  body_stages cfg req res w st
  = (Returned,
     State (rateLimitStore st)
       (calls st ++ respond_calls res 400 (ErrorBody (js "Query is required.") None))).
Proof.
  intros H Hq Ht. unfold body_stages.
  rewrite H, when_false_bind, query_bind by done. rewrite Hq, Ht. apply respond_exit.
Qed.

Lemma body_misconfigured q :
  is_null (parseBody req) = false →
  query_of (parseBody req) = Some q →
  JsString.truthy q = true →
  truthy_opt (OPENAI_API_KEY w) = false →
  body_stages cfg req res w st
  = (Returned,
     State (rateLimitStore st)
       (calls st
        ++ respond_calls res 500
             (ErrorBody (js "Server misconfiguration: missing OpenAI API key.") None))).
Proof.
  intros H Hq Ht Hk. unfold body_stages.
  rewrite H, when_false_bind, query_bind by done. rewrite Hq, Ht, Hk. simpl negb.
  rewrite when_false_bind. apply respond_exit.
Qed.

Lemma body_upstream q apiKey :
  is_null (parseBody req) = false →
  query_of (parseBody req) = Some q →
  JsString.truthy q = true →
  OPENAI_API_KEY w = Some apiKey →
  JsString.truthy apiKey = true →
  let reply := upstream_reply (fetch w OPENAI_URL (upstream_init cfg apiKey q)) in
  body_stages cfg req res w st
  = (reply.1.1,
     State (rateLimitStore st)
       (calls st ++ [upstream_call cfg apiKey q]
        ++ respond_calls res reply.1.2 reply.2)).
Proof.
  intros H Hq Ht Hk Hkt reply. unfold body_stages.
  rewrite H, when_false_bind, query_bind by done. rewrite Hq, Ht, Hk. simpl truthy_opt.
  rewrite Hkt. simpl negb. rewrite !when_false_bind. apply attempt_run.
Qed.

End Body.

Lemma handler_outcome cfg req res w st :
  handler cfg req res w st = outcome_of cfg req res w st.
Proof.
  unfold outcome_of, exit_of.
  destruct (origin_admitted cfg req) eqn:Ho; simpl negb; cbv iota;
    [| by apply handler_origin_rejected].
  case_bool_decide as Hopt; [by apply handler_options |].
  destruct (method_admitted req) eqn:Hm; simpl negb; cbv iota.
  2: { unfold method_admitted in Hm.
       rewrite bool_decide_eq_false_2 in Hm by done. simpl in Hm.
       apply negb_false_iff, andb_true_iff in Hm as [Ht Hp].
       apply negb_true_iff, bool_decide_eq_false in Hp.
       by apply handler_method_rejected. }
  destruct (rate_check cfg req w st).1 eqn:Hr; simpl negb; cbv iota;
    [| by apply handler_rate_limited].
  rewrite handler_reaches_body by (unfold reaches_body; by rewrite Ho, Hm, Hr).
  unfold at_body.
  destruct (is_null (parseBody req)) eqn:Hn.
  { rewrite body_invalid by done. simpl. by rewrite <- ?app_assoc. }
  destruct (query_of (parseBody req)) as [q |] eqn:Hq.
  2: { rewrite body_throws by done. by rewrite <- ?app_assoc. }
  destruct (JsString.truthy q) eqn:Ht; simpl negb; cbv iota.
  2: { rewrite (body_query_required _ _ _ _ _ q) by done. simpl.
       by rewrite <- ?app_assoc. }
  destruct (OPENAI_API_KEY w) as [[| c k] |] eqn:Hk.
  - rewrite (body_misconfigured _ _ _ _ _ q) by (done || by rewrite Hk).
    simpl. by rewrite <- ?app_assoc.
  - rewrite (body_upstream _ _ _ _ _ q (c :: k)) by done.
    simpl. by rewrite <- ?app_assoc.
  - rewrite (body_misconfigured _ _ _ _ _ q) by (done || by rewrite Hk).
    simpl. by rewrite <- ?app_assoc.
Qed.

End HandlerFacts.
Import HandlerFacts.

(** ** Trimming and fence stripping *)

Module StringFacts.

Lemma trimStart_space w s : all_space w → trimStart (w ++ s) = trimStart s.
Proof.
  induction 1 as [| c w Hc _ IH]; [done |]. simpl. by rewrite Hc.
Qed.

Lemma trimStart_app s y : trimStart s ≠ [] → trimStart (s ++ y) = trimStart s ++ y.
Proof.
  induction s as [| c s IH]; [done |]. simpl.
  destruct (is_trim_space c); [exact IH | done].
Qed.

Lemma trimStart_all_space w : all_space w → trimStart w = [].
Proof.
  induction 1 as [| c w Hc _ IH]; [reflexivity |]. simpl. by rewrite Hc.
Qed.

Lemma trimStart_split s : ∃ w, all_space w ∧ s = w ++ trimStart s.
Proof.
  induction s as [| c s (w & Hw & IH)]; [by exists [] |]. simpl.
  destruct (is_trim_space c) eqn:Hc.
  - exists (c :: w). split; [by constructor |]. simpl. by rewrite <- IH.
  - by exists [].
Qed.

Lemma all_space_rev w : all_space w → all_space (rev w).
Proof. apply List.Forall_rev. Qed.

Lemma trimEnd_space s w : all_space w → trimEnd (s ++ w) = trimEnd s.
Proof.
  intros H. unfold trimEnd. rewrite rev_app_distr, trimStart_space; [done |].
  by apply all_space_rev.
Qed.

Lemma trimEnd_split s : ∃ w, all_space w ∧ s = trimEnd s ++ w.
Proof.
  destruct (trimStart_split (rev s)) as (w & Hw & E).
  exists (rev w). split; [by apply all_space_rev |].
  unfold trimEnd. rewrite <- rev_app_distr, <- E. by rewrite rev_involutive.
Qed.

Lemma trimStart_nil_all_space s : trimStart s = [] → all_space s.
Proof.
  destruct (trimStart_split s) as (w & Hw & E). intros H.
  rewrite H, app_nil_r in E. by subst.
Qed.

(** Surrounding white space does not change what [trim] returns. *)
Lemma trim_space w1 x w2 :
  all_space w1 → all_space w2 → trim (w1 ++ x ++ w2) = trim x.
Proof.
  intros H1 H2. unfold trim. rewrite trimStart_space by done.
  destruct (trimStart x) as [| c y] eqn:E.
  - rewrite trimStart_all_space; [done |].
    apply Forall_app. split; [by apply trimStart_nil_all_space | done].
  - rewrite trimStart_app by by rewrite E. rewrite E. by apply trimEnd_space.
Qed.

Lemma trim_split s : ∃ w1 w2, all_space w1 ∧ all_space w2 ∧ s = w1 ++ trim s ++ w2.
Proof.
  destruct (trimStart_split s) as (w1 & H1 & E1).
  destruct (trimEnd_split (trimStart s)) as (w2 & H2 & E2).
  exists w1, w2. unfold trim. by rewrite <- E2, <- E1.
Qed.

Lemma space_separator c : is_trim_space c = true → separator c.
Proof.
  intros H. unfold fence_json, fence, letter.
  assert (c ≠ 96 ∧ c ≠ 106 ∧ c ≠ 74 ∧ c ≠ 115 ∧ c ≠ 83 ∧ c ≠ 111 ∧ c ≠ 79
          ∧ c ≠ 110 ∧ c ≠ 78)%N as (? & ? & ? & ? & ? & ? & ? & ? & ?).
  { repeat split; intros ->; vm_compute in H; discriminate. }
  repeat constructor; rewrite ?orb_false_iff, ?N.eqb_neq; repeat split; congruence.
Qed.

(** A separator ends every attempt to match across it. *)
Lemma starts_with_separator p c x b :
  Forall (λ q : N → bool, q c = false) p → p ≠ [] →
  starts_with p (x ++ c :: b) = starts_with p x.
Proof.
  revert x. induction p as [| q p IH]; intros x Hp Hne; [done |].
  apply Forall_cons in Hp as [Hq Hp].
  destruct x as [| d x]; simpl.
  - by rewrite Hq.
  - destruct p as [| q' p']; [done |]. by rewrite IH.
Qed.

Lemma starts_with_length p x : starts_with p x = true → (length p ≤ length x)%nat.
Proof.
  revert x. induction p as [| q p IH]; intros [| d x]; simpl; try lia; try done.
  intros [_ H]%andb_true_iff. apply IH in H. lia.
Qed.

Lemma fence_separator c : separator c → Forall (λ q : N → bool, q c = false) fence.
Proof. unfold fence_json. by intros [? _]%Forall_app. Qed.

Lemma replace_fences_separator c a b : separator c → ∀ k,
  (k ≤ length a)%nat →
  replace_fences k (a ++ c :: b) = replace_fences k a ++ c :: replace_fences 0 b.
Proof.
  intros Hc. induction a as [| x a IH]; intros k Hk.
  - assert (k = 0%nat) as -> by (simpl in Hk; lia). cbn [app replace_fences].
    pose proof (starts_with_separator fence_json c [] b Hc) as H1.
    pose proof (starts_with_separator fence c [] b (fence_separator c Hc)) as H2.
    simpl app in H1, H2. rewrite H1, H2 by done. reflexivity.
  - destruct k as [| k]; [| cbn [app replace_fences]; apply IH; simpl in Hk; lia].
    cbn [app replace_fences].
    pose proof (starts_with_separator fence_json c (x :: a) b Hc) as H1.
    pose proof (starts_with_separator fence c (x :: a) b (fence_separator c Hc)) as H2.
    cbn [app] in H1, H2. rewrite H1, H2 by done.
    destruct (starts_with fence_json (x :: a)) eqn:E1.
    { apply starts_with_length in E1. simpl in E1. apply IH. lia. }
    destruct (starts_with fence (x :: a)) eqn:E2.
    { apply starts_with_length in E2. simpl in E2. apply IH. lia. }
    simpl. f_equal. apply IH. lia.
Qed.

Lemma strip_fences_separator c a b :
  separator c → strip_fences (a ++ c :: b) = strip_fences a ++ c :: strip_fences b.
Proof. intros Hc. apply replace_fences_separator; [done | lia]. Qed.

Lemma strip_fences_space_l w s :
  all_space w → strip_fences (w ++ s) = w ++ strip_fences s.
Proof.
  induction 1 as [| c w Hc _ IH]; [done |].
  change ((c :: w) ++ s) with ([] ++ c :: (w ++ s)).
  rewrite strip_fences_separator by by apply space_separator.
  simpl. by rewrite IH.
Qed.

Lemma strip_fences_all_space w : all_space w → strip_fences w = w.
Proof.
  intros H. rewrite <- (app_nil_r w) at 1. rewrite strip_fences_space_l by done.
  by rewrite app_nil_r.
Qed.

Lemma strip_fences_space_r s w :
  all_space w → strip_fences (s ++ w) = strip_fences s ++ w.
Proof.
  intros H. destruct H as [| c w Hc Hw]; [by rewrite !app_nil_r |].
  rewrite strip_fences_separator by by apply space_separator.
  by rewrite (strip_fences_all_space w).
Qed.

(** Trimming before stripping changes nothing once the result is trimmed. *)
Lemma trim_strip_trim t : trim (strip_fences (trim t)) = trim (strip_fences t).
Proof.
  destruct (trim_split t) as (w1 & w2 & H1 & H2 & E).
  rewrite E at 2.
  rewrite strip_fences_space_l, strip_fences_space_r by done.
  by rewrite trim_space.
Qed.

Lemma trimEnd_snoc x d : is_trim_space d = false → trimEnd (x ++ [d]) = x ++ [d].
Proof.
  intros Hd. unfold trimEnd. rewrite rev_app_distr. simpl. rewrite Hd.
  simpl. by rewrite rev_involutive.
Qed.

Lemma fenced_codes t :
  fenced t = 96%N :: ([96; 96; 106; 115; 111; 110]%N ++ 10%N :: t ++ [10; 96; 96]%N) ++ [96%N].
Proof.
  unfold fenced.
  change (js "```json") with [96; 96; 96; 106; 115; 111; 110]%N.
  change (js "```") with [96; 96; 96]%N.
  simpl. f_equal. rewrite <- !app_assoc. reflexivity.
Qed.

Lemma trim_fenced t : trim (fenced t) = fenced t.
Proof.
  rewrite fenced_codes. unfold trim. cbn [trimStart].
  change (is_trim_space 96) with false. cbv iota.
  change (96%N :: ?x ++ [96%N]) with ((96%N :: x) ++ [96%N]).
  by apply trimEnd_snoc.
Qed.

Lemma strip_fences_fenced t :
  strip_fences (fenced t) = [10%N] ++ strip_fences t ++ [10%N].
Proof.
  unfold fenced.
  change (js "```json" ++ [10%N] ++ t ++ [10%N] ++ js "```")
    with (js "```json" ++ 10%N :: (t ++ 10%N :: js "```")).
  rewrite !strip_fences_separator by by apply space_separator.
  reflexivity.
Qed.

(** The text that reaches [JSON.parse] is the same with and without the
    fence. *)
Lemma cleaned_fenced t :
  trim (strip_fences (trim (fenced t))) = trim (strip_fences (trim t)).
Proof.
  rewrite trim_fenced, strip_fences_fenced, trim_strip_trim.
  apply trim_space; by repeat constructor.
Qed.

(** A text without backtick holds no fence. *)
Lemma replace_fences_plain s : 96%N ∉ s → replace_fences 0 s = s.
Proof.
  induction s as [| c s IH]; [done |].
  intros [Hc Hs]%not_elem_of_cons. cbn [replace_fences].
  assert ((96 =? c)%N = false) as E by (apply N.eqb_neq; congruence).
  unfold fence_json, fence. cbn [app starts_with]. rewrite E. cbn [andb].
  by rewrite IH.
Qed.

End StringFacts.
Import StringFacts.

(** ** Outcomes of the handler *)

Module OutcomeFacts.

Lemma statuses_app l1 l2 : statuses (l1 ++ l2) = statuses l1 ++ statuses l2.
Proof. apply omap_app. Qed.

Lemma statuses_respond res statusCode p :
  statuses (respond_calls res statusCode p) = [statusCode].
Proof.
  unfold respond_calls.
  destruct (has_status res), (has_setHeader res), (has_json res), (has_send res),
    (has_end res); reflexivity.
Qed.

Lemma statuses_cors res origin : statuses (cors_calls res origin) = [].
Proof. unfold cors_calls. destruct (_ && _); reflexivity. Qed.

Lemma statuses_no_content res : statuses (no_content_calls res) = [204].
Proof. unfold no_content_calls. destruct (has_status res), (has_end res); reflexivity. Qed.

Lemma payloads_app l1 l2 : payloads (l1 ++ l2) = payloads l1 ++ payloads l2.
Proof. apply omap_app. Qed.

Lemma payloads_cors res origin : payloads (cors_calls res origin) = [].
Proof. unfold cors_calls. destruct (_ && _); reflexivity. Qed.

Lemma payloads_no_content res : payloads (no_content_calls res) = [].
Proof. unfold no_content_calls. destruct (has_status res), (has_end res); reflexivity. Qed.

(** [respond] and the two header writers touch only the reply object. *)
Lemma respond_only_reply res statusCode p :
  Forall (λ ev, is_rate_limit_call ev = false ∧ is_fetch_call ev = false)
    (respond_calls res statusCode p).
Proof.
  unfold respond_calls.
  destruct (has_status res), (has_setHeader res), (has_json res), (has_send res),
    (has_end res); repeat constructor.
Qed.

Lemma cors_only_reply res origin :
  Forall (λ ev, is_rate_limit_call ev = false ∧ is_fetch_call ev = false)
    (cors_calls res origin).
Proof. unfold cors_calls. destruct (_ && _); repeat constructor. Qed.

Lemma no_content_only_reply res :
  Forall (λ ev, is_rate_limit_call ev = false ∧ is_fetch_call ev = false)
    (no_content_calls res).
Proof.
  unfold no_content_calls. destruct (has_status res), (has_end res); repeat constructor.
Qed.

Lemma new_calls_app cfg req res w st r store' l :
  handler cfg req res w st = (r, State store' (calls st ++ l)) →
  new_calls cfg req res w st = l.
Proof. intros H. unfold new_calls. rewrite H. simpl. by rewrite drop_app_length. Qed.

(** What [exit_of] says of a request that reaches the body stage. *)
Lemma exit_of_body cfg req w st :
  reaches_body cfg req w st = true →
  exit_of cfg req w st
  = if is_null (parseBody req) then InvalidBody
    else
      match query_of (parseBody req) with
      | None => QueryThrows
      | Some userQuery =>
          if negb (JsString.truthy userQuery) then MissingQuery
          else
            match OPENAI_API_KEY w with
            | Some (c :: k) => UpstreamCalled (c :: k) userQuery
            | _ => ServerMisconfigured
            end
      end.
Proof.
  unfold reaches_body. intros [[Ho Hm]%andb_true_iff Hr]%andb_true_iff.
  unfold exit_of. rewrite Ho, Hm, Hr. simpl negb. cbv iota.
  apply method_admitted_spec in Hm as [-> _]. reflexivity.
Qed.

End OutcomeFacts.
Import OutcomeFacts.

Module UpstreamFacts.

(** The handler of a request that reaches the upstream call, by the reply
    of the upstream. *)
Lemma handler_upstream cfg req res w st apiKey userQuery :
  exit_of cfg req w st = UpstreamCalled apiKey userQuery →
  let reply := upstream_reply (fetch w OPENAI_URL (upstream_init cfg apiKey userQuery)) in
  handler cfg req res w st
  = (reply.1.1,
     answered_upstream cfg req res w st apiKey userQuery reply.1.2 reply.2).
Proof.
  intros He. rewrite handler_outcome. unfold outcome_of. rewrite He. reflexivity.
Qed.

Lemma truthy_nonempty s : s ≠ [] → JsString.truthy s = true.
Proof. by destruct s. Qed.


(** The [try] block and its [catch] never let an exception out. *)
Lemma upstream_reply_completes fr :
  (upstream_reply fr).1.1 = Returned ∨ (upstream_reply fr).1.1 = Value ().
Proof.
  unfold upstream_reply, failure_reply, empty_reply.
  destruct fr as [e | r]; [by right |].
  destruct (body_text r) as [e | text]; [by right |].
  destruct (negb (ok r)); [by left |].
  destruct (JSON_parse text) as [data |]; [| by right].
  destruct (completion_content data) as [[| | | content | |] |]; auto.
  destruct (negb (JsString.truthy (trim content))); [by left |].
  destruct (JSON_parse (trim (strip_fences (trim content)))) as [parsed |];
    [| by left].
  destruct parsed; auto; destruct (_ && _); auto.
Qed.

(** The handler ends with an exception exactly at the query stage. *)
Lemma handler_throws_iff cfg req res w st e :
  (handler cfg req res w st).1 = Thrown e
  ↔ exit_of cfg req w st = QueryThrows ∧ e = TypeError_not_a_function (js "trim").
Proof.
  rewrite handler_outcome. unfold outcome_of.
  destruct (exit_of cfg req w st) as [| | | | | | | | apiKey userQuery]; simpl;
    try (split; [done | by intros [? _]]).
  - split; [by intros [= <-] | by intros [_ ->]].
  - destruct (upstream_reply_completes
                (fetch w OPENAI_URL (upstream_init cfg apiKey userQuery))) as [-> | ->];
      split; done || by intros [? _].
Qed.

End UpstreamFacts.
Import UpstreamFacts.

Module SuccessFacts.

Lemma is_string_inv v : is_string v = true → ∃ s, v = Some (JStr s).
Proof. destruct v as [[] |]; try done. by eexists. Qed.

Lemma is_array_inv v : is_array v = true → ∃ items, v = Some (JArr items).
Proof. destruct v as [[] |]; try done. by eexists. Qed.

Lemma ok_status r : ok r = false → status r ≠ 200.
Proof. unfold ok. intros H E. rewrite E in H. done. Qed.

(** The reply to an upstream behaviour has status 200 only on the last
    line of the [try] block. *)
Lemma upstream_reply_200 fr :
  (upstream_reply fr).1.2 = 200 →
  ∃ r text data content parsed primary secondary,
    fr = FetchResolves r ∧ ok r = true ∧ body_text r = inr text
    ∧ JSON_parse text = Some data
    ∧ completion_content data = Some (JStr content)
    ∧ JSON_parse (trim (strip_fences (trim content))) = Some parsed
    ∧ get_prop parsed (js "primary") = Some (JStr primary)
    ∧ get_prop parsed (js "secondary") = Some (JArr secondary)
    ∧ upstream_reply fr = (Value (), 200, Parsed parsed).
Proof.
  unfold upstream_reply. intros H.
  destruct fr as [e | r]; [done |].
  destruct (body_text r) as [e | text] eqn:Hb; [done |].
  destruct (ok r) eqn:Hok; simpl negb in *; cbv iota in *;
    [| by apply ok_status in Hok].
  destruct (JSON_parse text) as [data |] eqn:Hp; [| done].
  destruct (completion_content data) as [[| | | content | |] |] eqn:Hc; try done.
  destruct (JsString.truthy (trim content)); simpl negb in *; cbv iota in *; [| done].
  destruct (JSON_parse (trim (strip_fences (trim content)))) as [parsed |] eqn:Hj;
    [| done].
  destruct (is_string (get_prop parsed (js "primary"))) eqn:Hs;
    [| by destruct parsed].
  destruct (is_array (get_prop parsed (js "secondary"))) eqn:Ha;
    [| by destruct parsed].
  apply is_string_inv in Hs as [primary Hs].
  apply is_array_inv in Ha as [secondary Ha].
  exists r, text, data, content, parsed, primary, secondary.
  repeat split; try done. by destruct parsed.
Qed.

End SuccessFacts.
Import SuccessFacts.

(** * The claims of the specification *)

(** ** The rate limiter *)

(** C1.  [takeRateLimitSlot] is a sliding window log.  With window width
    [W] and ceiling [C], for every client key:
    - a check at time [now] is denied if and only if at least [C] of the
      key's stored timestamps [ts] satisfy [now - ts < W]; on denial the
      stored list becomes exactly the pruned in-window timestamps (without
      [now]), on admission the pruned list with [now] appended;
    - in a burst of checks, each less than a window after every earlier one
      and after every stored timestamp, the attempt number [i] (from zero)
      on a key holding [n] timestamps is admitted exactly when [n + i < C]:
      the excess attempts are denied;
    - in every store the process can reach, at every evaluation time the
      number of stored timestamps inside the window is at most the ceiling
      (a count, so not negative);
    - in every store the process can reach, a check is admitted as soon as
      one logged timestamp of the key, the oldest in particular, is out of
      the window. *)
Theorem takeRateLimitSlot_sliding_window (W C : Z) :
  (∀ key now st,
     let recent := RateLimiter.recent_of W now (default [] (st !! key)) in
     let outcome := RateLimiter.takeRateLimitSlot W C key now st in
     (outcome.1 = false ↔ C ≤ Z.of_nat (length recent))
     ∧ (outcome.1 = false → outcome.2 = <[key := recent]> st)
     ∧ (outcome.1 = true → outcome.2 = <[key := recent ++ [now]]> st))
  ∧ (∀ key times st,
       Forall (λ ts, Forall (λ t, t - ts < W) times) (default [] (st !! key)) →
       RateLimiter.within_one_window W times →
       (RateLimiter.takeMany W C key times st).1
       = map (λ i, bool_decide (Z.of_nat (length (default [] (st !! key)) + i) < C))
           (seq 0 (length times)))
  ∧ (0 ≤ C →
     ∀ st, RateLimiter.reachable W C st →
     ∀ key now,
       Z.of_nat (length (RateLimiter.recent_of W now (default [] (st !! key)))) ≤ C)
  ∧ (∀ st key l ts now,
       RateLimiter.reachable W C st → st !! key = Some l → ts ∈ l →
       W ≤ now - ts →
       (RateLimiter.takeRateLimitSlot W C key now st).1 = true).
Proof.
  split; [| split; [| split]].
  - intros key now st recent outcome. subst recent outcome.
    split; [apply RateLimiterFacts.take_denied_iff |].
    unfold RateLimiter.takeRateLimitSlot. case_bool_decide; simpl; by split.
  - intros key times st. apply RateLimiterFacts.takeMany_burst.
  - intros HC st Hst key now.
    pose proof (length_filter (λ ts, now - ts < W) (default [] (st !! key))) as Hle.
    unfold RateLimiter.recent_of.
    destruct (st !! key) as [l |] eqn:E; simpl in *; [| lia].
    pose proof (RateLimiterFacts.reachable_length W C st Hst key l E). lia.
  - intros st key l ts now. apply RateLimiterFacts.take_resumes.
Qed.

Lemma takeRateLimitSlot_sliding_window_witness :
  let key := js "203.0.113.7" in
  let st := (RateLimiter.takeRateLimitSlot 60000 5 key 1000 ∅).2 in
  (RateLimiter.takeMany 60000 5 key [1000; 2000; 3000; 4000; 5000; 6000; 7000] ∅).1
  = [true; true; true; true; true; false; false]
  ∧ Z.of_nat (length (RateLimiter.recent_of 60000 30000 (default [] (st !! key)))) ≤ 5
  ∧ (RateLimiter.takeRateLimitSlot 60000 5 key 61000 st).1 = true.
Proof.
  intros key st.
  destruct (takeRateLimitSlot_sliding_window 60000 5) as (_ & Hburst & Hinv & Hres).
  split; [| split].
  - rewrite Hburst.
    + vm_compute. reflexivity.
    + rewrite lookup_empty. constructor.
    + simpl. repeat split; repeat constructor; lia.
  - apply Hinv; [lia |]. subst st. apply RateLimiter.reachable_take, RateLimiter.reachable_init.
  - apply (Hres st key [1000] 1000 61000).
    + subst st. apply RateLimiter.reachable_take, RateLimiter.reachable_init.
    + vm_compute. reflexivity.
    + apply list_elem_of_singleton. reflexivity.
    + lia.
Defined.

(** ** The origin guard *)

(** C4, refuted as stated: with the allow-list [https://app.example], a
    request whose [Origin] header is present with the empty string as its
    value is not a member of the list and yet is not rejected: the handler
    goes on to the rate limiter and the later stages. *)
Lemma empty_origin_not_rejected :
  let req := request_of (js "POST") (Some []) None [] in
  allowedOrigins cfg1 = [js "https://app.example"]
  ∧ origin_of req = Some []
  ∧ ¬ ([] ∈ allowedOrigins cfg1)
  ∧ origin_admitted cfg1 req = true
  ∧ handler cfg1 req full_reply (offline None) fresh
    = (Returned,
       State {[ js "203.0.113.7" := [1000] ]}
         [RateLimitCall (js "203.0.113.7") 1000;
          ResStatus 400;
          ResSetHeader (js "Content-Type") (js "application/json");
          ResJson (ErrorBody (js "Query is required.") None)]).
Proof.
  intros req. repeat split; try (vm_compute; reflexivity).
  intros H. vm_compute in H. by apply list_elem_of_singleton in H.
Qed.

(** C4, amended.  With an empty allow-list every request is admitted.
    With a non-empty allow-list a request whose origin is a non-empty string
    is admitted if and only if the origin is a member of the list.  A
    request whose origin is absent or the empty string is always admitted.
    A request that is not admitted ends with the 403 payload: the handler
    returns having called only [respond], the rate-limit store unchanged.
    The decision does not depend on the method. *)
Theorem origin_admission cfg :
  (allowedOrigins cfg = [] → ∀ req, origin_admitted cfg req = true)
  ∧ (∀ req o,
       allowedOrigins cfg ≠ [] → origin_of req = Some o → o ≠ [] →
       (origin_admitted cfg req = true ↔ o ∈ allowedOrigins cfg))
  ∧ (∀ req, truthy_opt (origin_of req) = false → origin_admitted cfg req = true)
  ∧ (∀ req res w st,
       origin_admitted cfg req = false →
       handler cfg req res w st
       = (Returned,
          State (rateLimitStore st)
            (calls st
             ++ respond_calls res 403 (ErrorBody (js "Origin not allowed.") None)))
       ∧ Forall (λ ev, is_rate_limit_call ev = false ∧ is_fetch_call ev = false)
           (new_calls cfg req res w st))
  ∧ (∀ req m, origin_admitted cfg (with_method m req) = origin_admitted cfg req).
Proof.
  split; [| split; [| split; [| split]]].
  - intros Hl req. unfold origin_admitted, isOriginAllowed. rewrite Hl. simpl.
    by rewrite orb_true_r, andb_false_r.
  - intros req o Hl Ho Hne. unfold origin_admitted, isOriginAllowed. rewrite Ho.
    destruct o as [| c o]; [done |]. simpl.
    destruct (allowedOrigins cfg) as [| a l] eqn:E; [done |]. simpl.
    rewrite negb_true_iff, negb_false_iff. apply bool_decide_eq_true.
  - intros req Ht. unfold origin_admitted. by rewrite Ht.
  - intros req res w st H. split; [by apply handler_origin_rejected |].
    rewrite (new_calls_app _ _ _ _ _ _ _ _ (handler_origin_rejected _ _ _ _ _ H)).
    apply respond_only_reply.
  - reflexivity.
Qed.

Lemma origin_admission_witness :
  origin_admitted cfg0 (request_of (js "POST") (Some (js "https://other.example")) None [])
  = true
  ∧ js "https://app.example" ∈ allowedOrigins cfg1
  ∧ origin_admitted cfg1 (request_of (js "POST") None None []) = true
  ∧ handler cfg1 (request_of (js "POST") (Some (js "https://other.example")) None [])
      bare_reply (offline None) fresh
    = (Returned,
       State ∅
         [ResStatusCode 403;
          ResSetHeader (js "Content-Type") (js "application/json");
          ResEnd (Some (ErrorBody (js "Origin not allowed.") None))]).
Proof.
  destruct (origin_admission cfg0) as (Hempty & _).
  destruct (origin_admission cfg1) as (_ & Hiff & Habsent & Hrej & _).
  split; [| split; [| split]].
  - apply Hempty. reflexivity.
  - apply (Hiff (request_of (js "POST") (Some (js "https://app.example")) None [])
             (js "https://app.example")); done.
  - apply Habsent. reflexivity.
  - destruct (Hrej (request_of (js "POST") (Some (js "https://other.example")) None [])
                bare_reply (offline None) fresh) as [H _]; [vm_compute; reflexivity |].
    rewrite H. reflexivity.
Defined.

(** ** The preflight exit *)

(** C6.  An [OPTIONS] request whose origin is admitted ends with the
    no-content status: the handler returns having called nothing but the
    CORS header writers (when the origin is non-empty and the reply object
    has [setHeader]), the status setter with 204 and [end()] without a body;
    the rate limiter and [fetch] are not called and the rate-limit store is
    unchanged. *)
Theorem options_preflight cfg req res w st :
  origin_admitted cfg req = true →
  method req = Some (js "OPTIONS") →
  let out := handler cfg req res w st in
  let emitted := cors_calls res (origin_of req) ++ no_content_calls res in
  out.1 = Returned
  ∧ calls out.2 = calls st ++ emitted
  ∧ rateLimitStore out.2 = rateLimitStore st
  ∧ statuses emitted = [204]
  ∧ payloads emitted = []
  ∧ omap header_name emitted ⊆ cors_header_names
  ∧ Forall (λ ev, is_rate_limit_call ev = false ∧ is_fetch_call ev = false) emitted.
Proof.
  intros Ho Hm out emitted. subst out emitted.
  rewrite handler_options by done. simpl.
  repeat split.
  - by rewrite statuses_app, statuses_cors, statuses_no_content.
  - by rewrite payloads_app, payloads_cors, payloads_no_content.
  - unfold cors_calls, no_content_calls, cors_header_names.
    destruct (_ && _), (has_status res), (has_end res); simpl; set_solver.
  - apply Forall_app. split; [apply cors_only_reply | apply no_content_only_reply].
Qed.

Lemma options_preflight_witness :
  let req := request_of (js "OPTIONS") (Some (js "https://app.example")) None [] in
  handler cfg1 req full_reply (offline None) fresh
  = (Returned,
     State ∅
       [ResSetHeader (js "Access-Control-Allow-Origin") (js "https://app.example");
        ResSetHeader (js "Access-Control-Allow-Methods") (js "POST, OPTIONS");
        ResSetHeader (js "Access-Control-Allow-Headers") (js "Content-Type");
        ResSetHeader (js "Vary") (js "Origin");
        ResStatus 204; ResEnd None]).
Proof.
  intros req.
  destruct (options_preflight cfg1 req full_reply (offline None) fresh)
    as (H1 & H2 & H3 & _); [vm_compute; reflexivity | reflexivity |].
  destruct (handler cfg1 req full_reply (offline None) fresh) as [r [store log]].
  simpl in H1, H2, H3. subst r store. rewrite H2. reflexivity.
Defined.

(** ** The body stage *)

(** C7.  [parseBody] answers each of the three inbound shapes.  An object
    body already parsed by the transport is returned as it is.  A string
    body that is not valid JSON makes a request that reaches the body stage
    end with the 400 "Invalid JSON body." payload, the handler returning
    normally.  A request without object or string body whose stream is
    empty is normalized to the empty object, and a request that reaches the
    body stage then ends with the 400 "Query is required." payload. *)
Theorem body_normalization cfg req res w st :
  (∀ v, req_body req = Some v → is_object v = true → parseBody req = v)
  ∧ (∀ text,
       req_body req = Some (JStr text) → JSON_parse text = None →
       reaches_body cfg req w st = true →
       handler cfg req res w st
       = (Returned,
          answered_early cfg req res w st 400
            (ErrorBody (js "Invalid JSON body.") None)))
  ∧ (reads_stream req = true → concat (stream req) = [] →
     parseBody req = JObj []
     ∧ (reaches_body cfg req w st = true →
        handler cfg req res w st
        = (Returned,
           answered_early cfg req res w st 400
             (ErrorBody (js "Query is required.") None)))).
Proof.
  split; [| split].
  - intros v Hb Hv. unfold parseBody. rewrite Hb. by destruct v.
  - intros text Hb Hp Hr.
    rewrite handler_outcome. unfold outcome_of. rewrite exit_of_body by done.
    unfold parseBody. rewrite Hb, Hp. reflexivity.
  - intros Hs Hc.
    assert (parseBody req = JObj []) as Hb.
    { unfold parseBody, reads_stream in *. rewrite Hc.
      destruct (req_body req) as [[] |]; done. }
    split; [done |]. intros Hr.
    rewrite handler_outcome. unfold outcome_of. rewrite exit_of_body by done.
    rewrite Hb. reflexivity.
Qed.

Lemma body_normalization_witness :
  parseBody (request_of (js "POST") None (Some (JObj [(js "query", JStr (js "soup"))])) [])
  = JObj [(js "query", JStr (js "soup"))]
  ∧ handler cfg0 (post (js "{query: soup")) bare_reply (offline None) fresh
    = (Returned,
       answered_early cfg0 (post (js "{query: soup")) bare_reply (offline None) fresh
         400 (ErrorBody (js "Invalid JSON body.") None))
  ∧ handler cfg0 (request_of (js "POST") None None []) bare_reply (offline None) fresh
    = (Returned,
       answered_early cfg0 (request_of (js "POST") None None []) bare_reply
         (offline None) fresh 400 (ErrorBody (js "Query is required.") None)).
Proof.
  split; [| split].
  - destruct (body_normalization cfg0
                (request_of (js "POST") None
                   (Some (JObj [(js "query", JStr (js "soup"))])) [])
                bare_reply (offline None) fresh) as (H & _).
    apply H; reflexivity.
  - destruct (body_normalization cfg0 (post (js "{query: soup")) bare_reply
                (offline None) fresh) as (_ & H & _).
    apply (H (js "{query: soup")); vm_compute; reflexivity.
  - destruct (body_normalization cfg0 (request_of (js "POST") None None [])
                bare_reply (offline None) fresh) as (_ & _ & H).
    apply H; vm_compute; reflexivity.
Defined.

(** C10.  The JSON document [null] parses to [null], the value the
    normalizer also returns for a parse failure: a request that reaches the
    body stage with a string body, or with a non-empty accumulated stream,
    whose text parses to [null] ends with the 400 "Invalid JSON body."
    payload. *)
Theorem null_body_reported_invalid cfg req res w st text :
  JSON_parse (js "null") = Some JNull
  ∧ (JSON_parse text = Some JNull →
     req_body req = Some (JStr text)
     ∨ (reads_stream req = true ∧ concat (stream req) = text ∧ text ≠ []) →
     reaches_body cfg req w st = true →
     handler cfg req res w st
     = (Returned,
        answered_early cfg req res w st 400 (ErrorBody (js "Invalid JSON body.") None))).
Proof.
  split; [vm_compute; reflexivity |].
  intros Hp Hb Hr.
  rewrite handler_outcome. unfold outcome_of. rewrite exit_of_body by done.
  assert (parseBody req = JNull) as ->; [| reflexivity].
  unfold parseBody, reads_stream in *.
  destruct Hb as [-> | (Hs & Hc & Hne)]; [by rewrite Hp |].
  rewrite Hc. destruct text; [done |]. simpl negb. cbv iota. rewrite Hp.
  destruct (req_body req) as [[] |]; done.
Qed.

Lemma null_body_reported_invalid_witness :
  handler cfg0 (post (js "null")) full_reply (offline (Some (js "sk-test"))) fresh
  = (Returned,
     answered_early cfg0 (post (js "null")) full_reply (offline (Some (js "sk-test")))
       fresh 400 (ErrorBody (js "Invalid JSON body.") None))
  ∧ handler cfg0 (request_of (js "POST") None None [js "nu"; js "ll"]) full_reply
      (offline (Some (js "sk-test"))) fresh
    = (Returned,
       answered_early cfg0 (request_of (js "POST") None None [js "nu"; js "ll"])
         full_reply (offline (Some (js "sk-test"))) fresh 400
         (ErrorBody (js "Invalid JSON body.") None)).
Proof.
  split.
  - destruct (null_body_reported_invalid cfg0 (post (js "null")) full_reply
                (offline (Some (js "sk-test"))) fresh (js "null")) as (_ & H).
    apply H; [vm_compute; reflexivity | left; reflexivity | vm_compute; reflexivity].
  - destruct (null_body_reported_invalid cfg0
                (request_of (js "POST") None None [js "nu"; js "ll"]) full_reply
                (offline (Some (js "sk-test"))) fresh (js "null")) as (_ & H).
    apply H; [vm_compute; reflexivity | right; repeat split; done
             | vm_compute; reflexivity].
Defined.

(** ** The credential check *)

(** C8.  A request that passed the origin, method and rate-limit checks,
    whose body is not [null] and whose trimmed query is a non-empty string,
    ends with the 500 "Server misconfiguration" payload when the credential
    is absent or empty, and none of its calls is a call of [fetch]. *)
Theorem missing_credential cfg req res w st userQuery :
  reaches_body cfg req w st = true →
  is_null (parseBody req) = false →
  query_of (parseBody req) = Some userQuery →
  JsString.truthy userQuery = true →
  truthy_opt (OPENAI_API_KEY w) = false →
  handler cfg req res w st
  = (Returned,
     answered_early cfg req res w st 500
       (ErrorBody (js "Server misconfiguration: missing OpenAI API key.") None))
  ∧ Forall (λ ev, is_fetch_call ev = false) (new_calls cfg req res w st).
Proof.
  intros Hr Hn Hq Ht Hk.
  assert (handler cfg req res w st
          = (Returned,
             answered_early cfg req res w st 500
               (ErrorBody (js "Server misconfiguration: missing OpenAI API key.")
                  None))) as H.
  { rewrite handler_outcome. unfold outcome_of. rewrite exit_of_body by done.
    rewrite Hn, Hq, Ht. simpl negb. cbv iota.
    destruct (OPENAI_API_KEY w) as [[| c k] |]; done. }
  split; [done |].
  rewrite (new_calls_app _ _ _ _ _ _ _ _ H).
  apply Forall_app. split.
  { eapply Forall_impl; [apply cors_only_reply | by intros ev [_ ?]]. }
  constructor; [done |].
  eapply Forall_impl; [apply respond_only_reply | by intros ev [_ ?]].
Qed.

Lemma missing_credential_witness :
  handler cfg0 ask full_reply (offline None) fresh
  = (Returned,
     answered_early cfg0 ask full_reply (offline None) fresh 500
       (ErrorBody (js "Server misconfiguration: missing OpenAI API key.") None))
  ∧ Forall (λ ev, is_fetch_call ev = false)
      (new_calls cfg0 ask full_reply (offline None) fresh).
Proof.
  apply (missing_credential cfg0 ask full_reply (offline None) fresh (js "chicken soup"));
    vm_compute; reflexivity.
Defined.

(** ** The query stage *)

(** C3 (the handler does not catch every failure).  A [POST] whose body
    has a [query] that is a number other than zero gets past the body
    stage, and the call of [trim] on it throws a [TypeError] outside of any
    [try]: the handler ends with that exception, having called nothing on
    the reply object.  The same holds when the transport hands over the
    body as an object. *)
Theorem non_string_query_escapes :
  handler cfg0 (post (jsq "{'query':123}")) full_reply (offline (Some (js "sk-test")))
    fresh
  = (Thrown (TypeError_not_a_function (js "trim")),
     State {[ js "203.0.113.7" := [1000] ]} [RateLimitCall (js "203.0.113.7") 1000])
  ∧ (handler cfg0
       (request_of (js "POST") None (Some (JObj [(js "query", JBool true)])) [])
       full_reply (offline (Some (js "sk-test"))) fresh).1
    = Thrown (TypeError_not_a_function (js "trim")).
Proof. split; vm_compute; reflexivity. Qed.

(** ** Validation of the upstream reply *)

(** C5, refuted as stated: the listed outcomes are not all there is.  An
    upstream that answers with status 200 and an empty body, one whose
    completion content is a number, and one whose completion text is the
    JSON document [null] are each answered with the 500 "Unable to complete
    ranking request." payload of the [catch], which is none of the relay
    and 502 outcomes. *)
Lemma upstream_reply_outside_the_list :
  let ends text e :=
    handler cfg0 ask full_reply (world_of 200 text) fresh
    = (Value (),
       answered_upstream cfg0 ask full_reply (world_of 200 text) fresh
         (js "sk-test") (js "chicken soup") 500
         (ErrorBody (js "Unable to complete ranking request.") (Some (MessageOf e))))
    ∧ statuses (new_calls cfg0 ask full_reply (world_of 200 text) fresh) = [500] in
  ok (Response 200 (inr [])) = true
  ∧ ends [] SyntaxError
  ∧ ends (completion_body (js "7")) (TypeError_not_a_function (js "trim"))
  ∧ ends (completion_body (jsq "'null'")) (TypeError_property_of_null (js "primary")).
Proof. repeat split; vm_compute; reflexivity. Qed.

(** C5, amended.  A request that reaches the upstream call is answered
    with exactly one [respond], after the [fetch] call, and the handler
    completes without an exception, whatever the upstream does.  Every
    upstream behaviour has its outcome:
    - a [fetch] that rejects and a response whose body cannot be read are
      answered by the [catch] with 500 "Unable to complete ranking
      request." and the message of what was caught;
    - a status outside of 200 to 299 is relayed, with the body text as
      [details];
    - a body with a status in 200 to 299 that is not JSON is answered by
      the [catch];
    - a body that parses to a document without completion content, with
      [null] content or with a content string that is empty after trimming
      gives 502 "ChatGPT returned an empty response.";
    - a content that is neither [null] nor a string is answered by the
      [catch];
    - a content whose cleaned text (trimmed, fences removed, trimmed) is
      not JSON gives 502 "Unable to parse ChatGPT ranking response.";
    - a cleaned text that is the JSON document [null] is answered by the
      [catch];
    - a cleaned text that parses to a value other than [null] whose
      [primary] is not a string or whose [secondary] is not an array gives
      502 "ChatGPT returned unexpected data."; the document with only a
      [primary] is such a value;
    - otherwise the parsed value is sent with 200, whatever the catalog:
      the ids are not looked up in it.
    The completion content is the [content] of the [message] of the first
    of the [choices].  The cleaned text of a completion wrapped in fences,
    in either case of the language tag, is its inner text trimmed. *)
Theorem upstream_validation cfg req res w st apiKey userQuery :
  exit_of cfg req w st = UpstreamCalled apiKey userQuery →
  let fr := fetch w OPENAI_URL (upstream_init cfg apiKey userQuery) in
  let ends how statusCode p :=
    handler cfg req res w st
    = (how, answered_upstream cfg req res w st apiKey userQuery statusCode p) in
  let caught e :=
    ends (Value ()) 500
      (ErrorBody (js "Unable to complete ranking request.") (Some (MessageOf e))) in
  (∃ how statusCode p,
     ends how statusCode p ∧ (how = Returned ∨ how = Value ()))
  ∧ (∀ e, fr = FetchRejects e → caught e)
  ∧ (∀ r,
       fr = FetchResolves r →
       (∀ e, body_text r = inl e → caught e)
       ∧ (∀ text,
            body_text r = inr text →
            (ok r = false →
             ends Returned (status r)
               (ErrorBody (js "ChatGPT API error.") (Some (RawText text))))
            ∧ (ok r = true →
               (JSON_parse text = None → caught SyntaxError)
               ∧ (∀ data,
                    JSON_parse text = Some data →
                    (completion_content data = None
                     ∨ completion_content data = Some JNull
                     ∨ (∃ content, completion_content data = Some (JStr content)
                                   ∧ trim content = []) →
                     ends Returned 502
                       (ErrorBody (js "ChatGPT returned an empty response.") None))
                    ∧ (∀ v,
                         completion_content data = Some v → v ≠ JNull →
                         is_string (Some v) = false →
                         caught (TypeError_not_a_function (js "trim")))
                    ∧ (∀ content,
                         completion_content data = Some (JStr content) →
                         trim content ≠ [] →
                         let cleaned := trim (strip_fences (trim content)) in
                         (JSON_parse cleaned = None →
                          ends Returned 502
                            (ErrorBody (js "Unable to parse ChatGPT ranking response.")
                               None))
                         ∧ (JSON_parse cleaned = Some JNull →
                            caught (TypeError_property_of_null (js "primary")))
                         ∧ (∀ parsed,
                              JSON_parse cleaned = Some parsed → parsed ≠ JNull →
                              (is_string (get_prop parsed (js "primary"))
                               && is_array (get_prop parsed (js "secondary")) = false →
                               ends Returned 502
                                 (ErrorBody (js "ChatGPT returned unexpected data.")
                                    None))
                              ∧ (is_string (get_prop parsed (js "primary"))
                                 && is_array (get_prop parsed (js "secondary")) = true →
                                 ends (Value ()) 200 (Parsed parsed))))))))
  ∧ (∀ r, ok r = false ↔ status r < 200 ∨ 299 < status r)
  ∧ completion_content <$> JSON_parse (completion_body (jsq "'R01'"))
    = Some (Some (JStr (js "R01")))
  ∧ (∀ t, 96%N ∉ t → trim (strip_fences (trim (fenced t))) = trim t)
  ∧ trim (strip_fences (trim (jsq "```JSON {'primary':'R01'} ```")))
    = jsq "{'primary':'R01'}"
  ∧ JSON_parse (jsq "{'primary':'R01'}") = Some (JObj [(js "primary", JStr (js "R01"))])
  ∧ is_array (get_prop (JObj [(js "primary", JStr (js "R01"))]) (js "secondary")) = false.
Proof.
  intros He fr ends caught. subst fr ends caught. cbv beta.
  pose proof (handler_upstream cfg req res w st apiKey userQuery He) as H.
  cbv zeta in H.
  split; [| split; [| split; [| split; [| split; [| split; [| split; [| split]]]]]]].
  5, 7-9: vm_compute; reflexivity.
  - eexists _, _, _. split; [exact H |]. apply upstream_reply_completes.
  - intros e Hf. by rewrite Hf in H.
  - intros r Hf. rewrite Hf in H. unfold upstream_reply in H. split.
    { intros e Hb. by rewrite Hb in H. }
    intros text Hb. rewrite Hb in H. split.
    { intros Hok. rewrite Hok in H. exact H. }
    intros Hok. rewrite Hok in H. simpl negb in H. cbv iota in H. split.
    { intros Hp. by rewrite Hp in H. }
    intros data Hp. rewrite Hp in H. split; [| split].
    + intros [Hc | [Hc | (content & Hc & Ht)]]; rewrite Hc in H; try exact H.
      rewrite Ht in H. exact H.
    + intros v Hc Hn Hs. rewrite Hc in H. by destruct v.
    + intros content Hc Ht cleaned. subst cleaned. rewrite Hc in H.
      rewrite (truthy_nonempty _ Ht) in H. simpl negb in H. cbv iota in H.
      split; [| split].
      * intros Hj. rewrite Hj in H. exact H.
      * intros Hj. by rewrite Hj in H.
      * intros parsed Hj Hn. rewrite Hj in H.
        split; intros Hs; rewrite Hs in H; destruct parsed; done.
  - intros r. unfold ok. rewrite andb_false_iff, !Z.leb_gt. lia.
  - intros t Ht. rewrite cleaned_fenced, trim_strip_trim.
    unfold strip_fences. by rewrite replace_fences_plain.
Qed.

Lemma upstream_validation_witness :
  let ends w how statusCode p :=
    handler cfg0 ask full_reply w fresh
    = (how,
       answered_upstream cfg0 ask full_reply w fresh (js "sk-test") (js "chicken soup")
         statusCode p) in
  ends (world_of 429 (js "quota exceeded")) Returned 429
    (ErrorBody (js "ChatGPT API error.") (Some (RawText (js "quota exceeded"))))
  ∧ ends (world_of 200 (jsq "{'choices':[]}")) Returned 502
      (ErrorBody (js "ChatGPT returned an empty response.") None)
  ∧ ends (world_of 200 (completion_body (jsq "'I suggest R01.'"))) Returned 502
      (ErrorBody (js "Unable to parse ChatGPT ranking response.") None)
  ∧ ends (world_of 200 (completion_body (jsq "'{\'primary\':\'R01\'}'"))) Returned 502
      (ErrorBody (js "ChatGPT returned unexpected data.") None)
  ∧ ends
      (world_of 200
         (completion_body (jsq "'{\'primary\':\'R99\',\'secondary\':[\'R98\',\'R97\']}'")))
      (Value ()) 200
      (Parsed
         (JObj [(js "primary", JStr (js "R99"));
                (js "secondary", JArr [JStr (js "R98"); JStr (js "R97")])]))
  ∧ ends (world_of 200 (js "<html>Bad gateway</html>")) (Value ()) 500
      (ErrorBody (js "Unable to complete ranking request.")
         (Some (MessageOf SyntaxError))).
Proof.
  intros ends. subst ends. cbv beta.
  split; [| split; [| split; [| split; [| split]]]].
  - destruct (upstream_validation cfg0 ask full_reply (world_of 429 (js "quota exceeded"))
                fresh (js "sk-test") (js "chicken soup"))
      as (_ & _ & H & _); [vm_compute; reflexivity |].
    destruct (H (Response 429 (inr (js "quota exceeded")))) as (_ & H0);
      [reflexivity |].
    destruct (H0 (js "quota exceeded")) as (H1 & _); [reflexivity |].
    apply H1. reflexivity.
  - destruct (upstream_validation cfg0 ask full_reply
                (world_of 200 (jsq "{'choices':[]}")) fresh
                (js "sk-test") (js "chicken soup"))
      as (_ & _ & H & _); [vm_compute; reflexivity |].
    destruct (H (Response 200 (inr (jsq "{'choices':[]}")))) as (_ & H0);
      [reflexivity |].
    destruct (H0 (jsq "{'choices':[]}")) as (_ & H1); [reflexivity |].
    destruct (H1 eq_refl) as (_ & H2).
    destruct (H2 (JObj [(js "choices", JArr [])])) as (H3 & _);
      [vm_compute; reflexivity |].
    apply H3. left. reflexivity.
  - set (text := completion_body (jsq "'I suggest R01.'")).
    destruct (upstream_validation cfg0 ask full_reply (world_of 200 text) fresh
                (js "sk-test") (js "chicken soup"))
      as (_ & _ & H & _); [vm_compute; reflexivity |].
    destruct (H (Response 200 (inr text))) as (_ & H0); [reflexivity |].
    destruct (H0 text) as (_ & H1); [reflexivity |].
    destruct (H1 eq_refl) as (_ & H2).
    destruct (JSON_parse text) as [data |] eqn:E; [| vm_compute in E; discriminate].
    destruct (H2 data) as (_ & _ & H3); [reflexivity |].
    destruct (H3 (js "I suggest R01.")) as (H4 & _).
    + vm_compute in E. injection E as <-. vm_compute. reflexivity.
    + vm_compute. discriminate.
    + apply H4. vm_compute. reflexivity.
  - set (text := completion_body (jsq "'{\'primary\':\'R01\'}'")).
    destruct (upstream_validation cfg0 ask full_reply (world_of 200 text) fresh
                (js "sk-test") (js "chicken soup"))
      as (_ & _ & H & _); [vm_compute; reflexivity |].
    destruct (H (Response 200 (inr text))) as (_ & H0); [reflexivity |].
    destruct (H0 text) as (_ & H1); [reflexivity |].
    destruct (H1 eq_refl) as (_ & H2).
    destruct (JSON_parse text) as [data |] eqn:E; [| vm_compute in E; discriminate].
    destruct (H2 data) as (_ & _ & H3); [reflexivity |].
    destruct (H3 (jsq "{'primary':'R01'}")) as (_ & _ & H4).
    + vm_compute in E. injection E as <-. vm_compute. reflexivity.
    + vm_compute. discriminate.
    + destruct (H4 (JObj [(js "primary", JStr (js "R01"))])) as (H5 & _);
        [vm_compute; reflexivity | discriminate |].
      apply H5. vm_compute. reflexivity.
  - set (text :=
           completion_body (jsq "'{\'primary\':\'R99\',\'secondary\':[\'R98\',\'R97\']}'")).
    destruct (upstream_validation cfg0 ask full_reply (world_of 200 text) fresh
                (js "sk-test") (js "chicken soup"))
      as (_ & _ & H & _); [vm_compute; reflexivity |].
    destruct (H (Response 200 (inr text))) as (_ & H0); [reflexivity |].
    destruct (H0 text) as (_ & H1); [reflexivity |].
    destruct (H1 eq_refl) as (_ & H2).
    destruct (JSON_parse text) as [data |] eqn:E; [| vm_compute in E; discriminate].
    destruct (H2 data) as (_ & _ & H3); [reflexivity |].
    destruct (H3 (jsq "{'primary':'R99','secondary':['R98','R97']}")) as (_ & _ & H4).
    + vm_compute in E. injection E as <-. vm_compute. reflexivity.
    + vm_compute. discriminate.
    + destruct (H4 (JObj [(js "primary", JStr (js "R99"));
                          (js "secondary", JArr [JStr (js "R98"); JStr (js "R97")])]))
        as (_ & H5); [vm_compute; reflexivity | discriminate |].
      apply H5. vm_compute. reflexivity.
  - set (text := js "<html>Bad gateway</html>").
    destruct (upstream_validation cfg0 ask full_reply (world_of 200 text) fresh
                (js "sk-test") (js "chicken soup"))
      as (_ & _ & H & _); [vm_compute; reflexivity |].
    destruct (H (Response 200 (inr text))) as (_ & H0); [reflexivity |].
    destruct (H0 text) as (_ & H1); [reflexivity |].
    destruct (H1 eq_refl) as (H2 & _).
    apply H2. vm_compute. reflexivity.
Defined.

(** ** The success emission *)

(** C2, refuted as stated: the upstream completion
    [{"primary":"R01","secondary":[]}] is sent to the caller with status
    200, and its [secondary] does not have two elements. *)
Lemma success_with_empty_secondary :
  let w := world_of 200 (completion_body (jsq "'{\'primary\':\'R01\',\'secondary\':[]}'")) in
  let v := JObj [(js "primary", JStr (js "R01")); (js "secondary", JArr [])] in
  handler cfg0 ask full_reply w fresh
  = (Value (),
     answered_upstream cfg0 ask full_reply w fresh (js "sk-test") (js "chicken soup")
       200 (Parsed v))
  ∧ statuses (new_calls cfg0 ask full_reply w fresh) = [200]
  ∧ payloads (new_calls cfg0 ask full_reply w fresh) = [Parsed v]
  ∧ conforms v = false.
Proof. repeat split; vm_compute; reflexivity. Qed.

(** C2, amended.  Whenever the handler sets status 200, the request
    reached the upstream call, the upstream resolved with a success status
    and a body holding a completion content string, and the value sent with
    [respond] is the value [JSON.parse] returned for the cleaned content,
    unchanged; its [primary] is a string and its [secondary] is an array, of
    any length and with elements of any kind. *)
Theorem success_emission cfg req res w st :
  200 ∈ statuses (new_calls cfg req res w st) →
  ∃ apiKey userQuery r text data content parsed primary secondary,
    exit_of cfg req w st = UpstreamCalled apiKey userQuery
    ∧ fetch w OPENAI_URL (upstream_init cfg apiKey userQuery) = FetchResolves r
    ∧ ok r = true
    ∧ body_text r = inr text
    ∧ JSON_parse text = Some data
    ∧ completion_content data = Some (JStr content)
    ∧ JSON_parse (trim (strip_fences (trim content))) = Some parsed
    ∧ get_prop parsed (js "primary") = Some (JStr primary)
    ∧ get_prop parsed (js "secondary") = Some (JArr secondary)
    ∧ handler cfg req res w st
      = (Value (),
         answered_upstream cfg req res w st apiKey userQuery 200 (Parsed parsed)).
Proof.
  intros H.
  pose proof (handler_outcome cfg req res w st) as Ho. unfold outcome_of in Ho.
  destruct (exit_of cfg req w st) as [| | | | | | | | apiKey userQuery] eqn:He;
    rewrite (new_calls_app _ _ _ _ _ _ _ _ Ho) in H;
    rewrite ?statuses_app, ?statuses_cors, ?statuses_respond, ?statuses_no_content in H;
    simpl in H;
    try (apply list_elem_of_singleton in H; discriminate);
    try (by apply elem_of_nil in H).
  apply list_elem_of_singleton in H. symmetry in H.
  destruct (upstream_reply_200 _ H)
    as (r & text & data & content & parsed & primary & secondary
        & Hf & Hok & Hb & Hp & Hc & Hj & H1 & H2 & Hr).
  exists apiKey, userQuery, r, text, data, content, parsed, primary, secondary.
  repeat split; try done.
  rewrite Ho, Hr. reflexivity.
Qed.

Lemma success_emission_witness :
  let w := world_of 200
             (completion_body
                (jsq "'{\'primary\':\'R01\',\'secondary\':[\'R02\',\'R03\']}'")) in
  ∃ parsed,
    handler cfg0 ask bare_reply w fresh
    = (Value (),
       answered_upstream cfg0 ask bare_reply w fresh (js "sk-test") (js "chicken soup")
         200 (Parsed parsed))
    ∧ is_string (get_prop parsed (js "primary")) = true
    ∧ is_array (get_prop parsed (js "secondary")) = true.
Proof.
  intros w.
  destruct (success_emission cfg0 ask bare_reply w fresh)
    as (apiKey & userQuery & r & text & data & content & parsed & primary & secondary
        & He & _ & _ & _ & _ & _ & _ & H1 & H2 & H).
  { vm_compute. apply list_elem_of_singleton. reflexivity. }
  exists parsed. vm_compute in He. injection He as <- <-.
  rewrite H, H1, H2. repeat split.
Defined.

(** ** Code fences *)




(** * Further properties of the code *)

Import ProductGuard.

(** ** Splitting, joining and trimming *)

Module SplitFacts.

Lemma split_not_nil sep s : split sep s ≠ [].
Proof.
  destruct s as [| c s]; simpl; [done |].
  destruct (c =? sep)%N; [done |]. by destruct (split sep s).
Qed.

(** No segment of a split holds the separator. *)
Lemma split_segments sep s : Forall (λ seg, sep ∉ seg) (split sep s).
Proof.
  induction s as [| c s IH]; simpl.
  - repeat constructor. apply not_elem_of_nil.
  - destruct (c =? sep)%N eqn:E.
    + constructor; [apply not_elem_of_nil | done].
    + destruct (split sep s) as [| w ws]; [repeat constructor |].
      * intros [-> | H]%elem_of_cons; [by rewrite N.eqb_refl in E |].
        by apply elem_of_nil in H.
      * apply Forall_cons in IH as [Hw Hws]. constructor; [| done].
        intros [-> | H]%elem_of_cons; [by rewrite N.eqb_refl in E | done].
Qed.

(** Joining the segments of a split gives the string back. *)
Lemma join_split sep s : join [sep] (split sep s) = s.
Proof.
  induction s as [| c s IH]; [done |]. simpl.
  pose proof (split_not_nil sep s) as Hne.
  destruct (c =? sep)%N eqn:E.
  - apply N.eqb_eq in E as ->.
    destruct (split sep s) as [| w ws]; [done |]. simpl. by rewrite <- IH.
  - destruct (split sep s) as [| w ws]; [done |].
    destruct ws as [| w' ws]; simpl in *; by rewrite <- IH.
Qed.

Lemma split_app_sep sep a s :
  sep ∉ a → split sep (a ++ sep :: s) = a :: split sep s.
Proof.
  induction a as [| c a IH]; intros Ha; simpl.
  - by rewrite N.eqb_refl.
  - apply not_elem_of_cons in Ha as [Hc Ha].
    assert ((c =? sep)%N = false) as -> by (apply N.eqb_neq; congruence).
    by rewrite IH.
Qed.

Lemma split_no_sep sep a : sep ∉ a → split sep a = [a].
Proof.
  induction a as [| c a IH]; intros Ha; simpl; [done |].
  apply not_elem_of_cons in Ha as [Hc Ha].
  assert ((c =? sep)%N = false) as -> by (apply N.eqb_neq; congruence).
  by rewrite IH.
Qed.

(** Splitting the join of separator-free segments gives them back. *)
Lemma split_join sep l :
  l ≠ [] → Forall (λ seg, sep ∉ seg) l → split sep (join [sep] l) = l.
Proof.
  induction l as [| a l IH]; intros Hne Hl; [done |].
  apply Forall_cons in Hl as [Ha Hl].
  destruct l as [| b l]; [by apply split_no_sep |].
  change (join [sep] (a :: b :: l)) with (a ++ sep :: join [sep] (b :: l)).
  rewrite split_app_sep by done. by rewrite IH.
Qed.

(** The first segment is the part before the first separator. *)
Lemma head_split sep s :
  ∃ seg rest,
    head (split sep s) = Some seg ∧ (sep ∉ seg)
    ∧ (s = seg ∨ s = seg ++ sep :: rest).
Proof.
  pose proof (join_split sep s) as Hj.
  pose proof (split_segments sep s) as Hs.
  destruct (split sep s) as [| seg ws] eqn:E; [by apply split_not_nil in E |].
  apply Forall_cons in Hs as [Hseg _].
  exists seg, (join [sep] ws). split; [done |]. split; [done |].
  destruct ws as [| w ws]; [by left | by right].
Qed.

(** Every element of a join is a part of it. *)
Lemma join_infix sep l x : x ∈ l → ∃ a b, join sep l = a ++ x ++ b.
Proof.
  induction l as [| y l IH]; intros Hx; [by apply elem_of_nil in Hx |].
  apply elem_of_cons in Hx as [-> | Hx].
  - destruct l as [| z l]; [exists [], []; simpl; by rewrite app_nil_r |].
    exists [], (sep ++ join sep (z :: l)). reflexivity.
  - destruct (IH Hx) as (a & b & E).
    destruct l as [| z l]; [by apply elem_of_nil in Hx |].
    exists (y ++ sep ++ a), b.
    change (join sep (y :: z :: l)) with (y ++ sep ++ join sep (z :: l)).
    rewrite E. by rewrite <- !app_assoc.
Qed.

Lemma trim_idempotent s : trim (trim s) = trim s.
Proof.
  destruct (trim_split s) as (w1 & w2 & H1 & H2 & E).
  rewrite E at 2. by rewrite trim_space.
Qed.

(** [trim] only removes: what an element of the result is, is in the
    string. *)
Lemma elem_of_trim c s : c ∈ trim s → c ∈ s.
Proof.
  destruct (trim_split s) as (w1 & w2 & H1 & H2 & E). intros H.
  rewrite E. apply elem_of_app. right. apply elem_of_app. by left.
Qed.

Lemma trim_all_space w : all_space w → trim w = [].
Proof.
  intros H. unfold trim. by rewrite trimStart_all_space.
Qed.

Lemma trim_nil_all_space s : trim s = [] → all_space s.
Proof.
  destruct (trim_split s) as (w1 & w2 & H1 & H2 & E). intros H.
  rewrite E, H. apply Forall_app. split; [done |]. by apply Forall_app.
Qed.

End SplitFacts.
Import SplitFacts.

(** * Further properties of the code *)

(** ** The client key *)

(** X1.  A forwarded-for header that is a non-empty string decides the
    client key, whatever the real-ip header and the peer address are: the
    key is the part of the header before its first comma, trimmed; it holds
    no comma and no white space at either end.  When the forwarded-for
    header is absent or the empty string, a real-ip header that is a
    non-empty string decides the key in the same way. *)
Theorem getClientKey_header req h xff xri s :
  req_headers req = Some (Headers h xff xri) →
  s ≠ [] →
  xff = Some (HString s)
  ∨ (truthy_header xff = false ∧ xri = Some (HString s)) →
  ∃ seg rest,
    (s = seg ∨ s = seg ++ 44%N :: rest)
    ∧ (44%N ∉ seg)
    ∧ getClientKey req = trim seg
    ∧ (44%N ∉ getClientKey req)
    ∧ trim (getClientKey req) = getClientKey req.
Proof.
  intros Hh Hs Hsel.
  destruct (head_split 44 s) as (seg & rest & Hhead & Hseg & Hshape).
  exists seg, rest.
  assert (getClientKey req = trim seg) as ->.
  { unfold getClientKey. rewrite Hh.
    cbn [mbind option_bind x_forwarded_for x_real_ip].
    destruct s as [| c s']; [done |].
    destruct Hsel as [-> | [Hf ->]].
    - cbn [truthy_header JsString.truthy]. by rewrite Hhead.
    - rewrite Hf. by rewrite Hhead. }
  repeat split; try done.
  - intros H. by apply elem_of_trim in H.
  - apply trim_idempotent.
Qed.

Lemma getClientKey_header_witness :
  getClientKey (request_of (js "POST") None None []) = js "203.0.113.7".
Proof.
  destruct (getClientKey_header (request_of (js "POST") None None []) None
              (Some (HString (js "203.0.113.7, 10.0.0.1"))) None
              (js "203.0.113.7, 10.0.0.1"))
    as (seg & rest & Hshape & Hseg & Hkey & _); [reflexivity | done | by left |].
  vm_compute. reflexivity.
Defined.

(** X2.  A forwarded-for header that arrives as an array of strings is
    truthy and not a string: the real-ip header is then not consulted, and
    the key is the peer address, or ["unknown"] when the peer address is
    absent or empty.  The key of that fallback is never the empty
    string. *)
Theorem getClientKey_fallback req h l xri :
  req_headers req = Some (Headers h (Some (HArray l)) xri) →
  getClientKey req
  = (if truthy_opt (remoteAddress req) then default [] (remoteAddress req)
     else js "unknown")
  ∧ getClientKey req ≠ [].
Proof.
  intros Hh. unfold getClientKey. rewrite Hh. simpl. split; [done |].
  destruct (remoteAddress req) as [[| c a] |]; done.
Qed.

Lemma getClientKey_fallback_witness :
  getClientKey
    (Request (Some (js "POST"))
       (Some (Headers None (Some (HArray [js "203.0.113.7"]))
                (Some (HString (js "198.51.100.9")))))
       None None [])
  = js "unknown".
Proof.
  destruct (getClientKey_fallback
              (Request (Some (js "POST"))
                 (Some (Headers None (Some (HArray [js "203.0.113.7"]))
                          (Some (HString (js "198.51.100.9")))))
                 None None [])
              None [js "203.0.113.7"] (Some (HString (js "198.51.100.9"))))
    as [H _]; [reflexivity |].
  rewrite H. reflexivity.
Defined.

(** ** The allow-list *)

(** X3.  The allow-list read from the environment gives back the origins
    it was written from: for origins that are non-empty, hold no comma and
    no white space at either end, the list parsed from their join with
    commas is the list itself. *)
Theorem allowedOrigins_of_join l :
  Forall (λ o, o ≠ [] ∧ (44%N ∉ o) ∧ trim o = o) l →
  allowedOrigins_of (join [44%N] l) = l.
Proof.
  intros Hl. unfold allowedOrigins_of.
  destruct l as [| a l]; [reflexivity |].
  rewrite split_join; [| done |].
  2: { eapply Forall_impl; [exact Hl |]. by intros o (_ & ? & _). }
  induction Hl as [| o l' (Hne & _ & Ht) _ IH]; [done |].
  cbn [map List.filter]. rewrite Ht. destruct o; [done |]. simpl. by rewrite IH.
Qed.

Lemma allowedOrigins_of_join_witness :
  allowedOrigins_of (js "https://a.example,https://b.example")
  = [js "https://a.example"; js "https://b.example"].
Proof.
  apply (allowedOrigins_of_join [js "https://a.example"; js "https://b.example"]).
  repeat constructor; try done; intros H; vm_compute in H;
    repeat (apply elem_of_cons in H as [H | H]; [discriminate |]);
    by apply elem_of_nil in H.
Defined.

(** X4.  Every entry of the allow-list is non-empty, holds no comma and has
    no white space at either end, whatever the environment value; and an
    environment value made of commas and white space only gives the empty
    allow-list, which admits every origin. *)
Theorem allowedOrigins_of_entries env :
  Forall (λ o, o ≠ [] ∧ (44%N ∉ o) ∧ trim o = o) (allowedOrigins_of env)
  ∧ (Forall (λ c, c = 44%N ∨ is_trim_space c = true) env →
     allowedOrigins_of env = []).
Proof.
  unfold allowedOrigins_of. split.
  - pose proof (split_segments 44 env) as Hs.
    induction Hs as [| seg l Hseg _ IH]; [constructor |].
    cbn [map List.filter].
    destruct (JsString.truthy (trim seg)) eqn:E; [| done].
    constructor; [| done]. repeat split.
    + by destruct (trim seg).
    + intros H. by apply elem_of_trim in H.
    + apply trim_idempotent.
  - intros Henv.
    assert (Forall (λ seg : jsstring, all_space seg) (split 44 env)) as Hs.
    { pose proof (join_split 44 env) as Hj.
      pose proof (split_segments 44 env) as Hseg.
      rewrite <- Hj in Henv. clear Hj.
      induction (split 44 env) as [| seg l IH]; [constructor |].
      apply Forall_cons in Hseg as [Hseg Hl].
      assert (Forall (λ c, c = 44%N ∨ is_trim_space c = true) seg
              ∧ Forall (λ c, c = 44%N ∨ is_trim_space c = true) (join [44%N] l))
        as [H1 H2].
      { destruct l as [| b l]; [by split; [| constructor] |].
        change (join [44%N] (seg :: b :: l))
          with (seg ++ [44%N] ++ join [44%N] (b :: l)) in Henv.
        apply Forall_app in Henv as [? [_ ?]%Forall_app]. by split. }
      constructor; [| by apply IH].
      rewrite Forall_forall in H1 |- *. intros c Hc.
      destruct (H1 c Hc) as [-> | ?]; done. }
    induction Hs as [| seg l Hseg _ IH]; [done |].
    cbn [map List.filter]. by rewrite trim_all_space.
Qed.

Lemma allowedOrigins_of_entries_witness :
  allowedOrigins_of (js " , ,") = []
  ∧ isOriginAllowed (Config 60000 5 (js " , ,") []) (Some (js "https://any.example"))
    = true.
Proof.
  destruct (allowedOrigins_of_entries (js " , ,")) as [_ H].
  assert (allowedOrigins_of (js " , ,") = []) as E.
  { apply H. change (js " , ,") with [32; 44; 32; 44]%N.
    repeat (apply Forall_cons; split; [first [by left | by right] |]).
    constructor. }
  split; [exact E |]. unfold isOriginAllowed, allowedOrigins.
  change (ALLOWED_ORIGIN (Config 60000 5 (js " , ,") [])) with (js " , ,").
  rewrite E. reflexivity.
Defined.

(** ** The rate-limit store *)

(** X5.  An admission check touches the entry of its own client key only:
    the timestamps of every other key are as before, no key is ever removed,
    and the checked key is in the store afterwards, also when the check is
    denied. *)
Theorem takeRateLimitSlot_frame (W C : Z) key now st :
  (∀ key', key ≠ key' →
     (RateLimiter.takeRateLimitSlot W C key now st).2 !! key' = st !! key')
  ∧ dom st ⊆ dom (RateLimiter.takeRateLimitSlot W C key now st).2
  ∧ key ∈ dom (RateLimiter.takeRateLimitSlot W C key now st).2.
Proof.
  split; [intros key'; apply RateLimiterFacts.take_other |].
  unfold RateLimiter.takeRateLimitSlot.
  case_bool_decide; simpl; rewrite dom_insert_L; set_solver.
Qed.

Lemma takeRateLimitSlot_frame_witness :
  (RateLimiter.takeRateLimitSlot 60000 5 (js "203.0.113.7") 2000
     {[ js "198.51.100.9" := [1000] ]}).2 !! js "198.51.100.9"
  = Some [1000].
Proof.
  destruct (takeRateLimitSlot_frame 60000 5 (js "203.0.113.7") 2000
              {[ js "198.51.100.9" := [1000] ]}) as (H & _).
  rewrite H; [| discriminate]. apply lookup_singleton_eq.
Defined.

(** X6.  In every store the process can reach, the list kept for a key is
    never longer than the ceiling (and empty for a ceiling that is not
    positive), stale timestamps included: the memory held per key is
    bounded. *)
Theorem rateLimitStore_bounded (W C : Z) st key l :
  RateLimiter.reachable W C st → st !! key = Some l →
  Z.of_nat (length l) ≤ Z.max 0 C.
Proof.
  intros Hst Hl. exact (RateLimiterFacts.reachable_length W C st Hst key l Hl).
Qed.

Lemma rateLimitStore_bounded_witness :
  let st :=
    (RateLimiter.takeRateLimitSlot 60000 1 (js "203.0.113.7") 2000
       (RateLimiter.takeRateLimitSlot 60000 1 (js "203.0.113.7") 1000 ∅).2).2 in
  st !! js "203.0.113.7" = Some [1000]
  ∧ Z.of_nat (length [1000]) ≤ Z.max 0 1.
Proof.
  intros st.
  assert (st !! js "203.0.113.7" = Some [1000]) as Hl by (vm_compute; reflexivity).
  split; [exact Hl |].
  apply (rateLimitStore_bounded 60000 1 st (js "203.0.113.7") [1000]); [| exact Hl].
  apply RateLimiter.reachable_take, RateLimiter.reachable_take,
    RateLimiter.reachable_init.
Defined.

(** X7.  A denied check is free.  When a check is denied at time [now],
    every later check of the same key (at a time not before [now]) gives the
    same answer and the same store as if the denied check had never been
    made: denied attempts use no slot and do not postpone the next
    admission. *)
Theorem denied_check_is_free (W C : Z) key now now' st :
  (RateLimiter.takeRateLimitSlot W C key now st).1 = false →
  now ≤ now' →
  RateLimiter.takeRateLimitSlot W C key now'
    (RateLimiter.takeRateLimitSlot W C key now st).2
  = RateLimiter.takeRateLimitSlot W C key now' st.
Proof.
  intros Hd Hle.
  apply RateLimiterFacts.take_denied_iff in Hd.
  rewrite (RateLimiterFacts.take_denied W C key now st Hd).
  unfold RateLimiter.takeRateLimitSlot. cbn [snd].
  rewrite lookup_insert_eq.
  change (default [] (Some ?x)) with x.
  assert (RateLimiter.recent_of W now'
            (RateLimiter.recent_of W now (default [] (st !! key)))
          = RateLimiter.recent_of W now' (default [] (st !! key))) as ->.
  { unfold RateLimiter.recent_of. rewrite list_filter_filter.
    apply list_filter_iff. intros ts. split; [by intros [? _] | intros H; split; [done | lia]]. }
  case_bool_decide; by rewrite insert_insert_eq.
Qed.

Lemma denied_check_is_free_witness :
  let key := js "203.0.113.7" in
  let st : gmap jsstring (list Z) := {[ key := [1000; 2000] ]} in
  RateLimiter.takeRateLimitSlot 60000 2 key 61500
    (RateLimiter.takeRateLimitSlot 60000 2 key 3000 st).2
  = RateLimiter.takeRateLimitSlot 60000 2 key 61500 st.
Proof.
  intros key st.
  apply (denied_check_is_free 60000 2 key 3000 61500 st); [| lia].
  vm_compute. reflexivity.
Defined.

(** ** Counting the calls of the handler *)

Module CallFacts.

Lemma filter_none {A} (f : A → bool) l :
  Forall (λ x, f x = false) l → List.filter f l = [].
Proof. induction 1 as [| x l Hx _ IH]; simpl; [done |]. by rewrite Hx. Qed.

Lemma fetch_free_respond res statusCode p :
  List.filter is_fetch_call (respond_calls res statusCode p) = [].
Proof.
  apply filter_none. eapply Forall_impl; [apply respond_only_reply |].
  by intros ev [_ ?].
Qed.

Lemma limiter_free_respond res statusCode p :
  List.filter is_rate_limit_call (respond_calls res statusCode p) = [].
Proof.
  apply filter_none. eapply Forall_impl; [apply respond_only_reply |].
  by intros ev [? _].
Qed.

Lemma fetch_free_cors res origin : List.filter is_fetch_call (cors_calls res origin) = [].
Proof.
  apply filter_none. eapply Forall_impl; [apply cors_only_reply |]. by intros ev [_ ?].
Qed.

Lemma limiter_free_cors res origin :
  List.filter is_rate_limit_call (cors_calls res origin) = [].
Proof.
  apply filter_none. eapply Forall_impl; [apply cors_only_reply |]. by intros ev [? _].
Qed.

Lemma fetch_free_no_content res : List.filter is_fetch_call (no_content_calls res) = [].
Proof.
  apply filter_none. eapply Forall_impl; [apply no_content_only_reply |].
  by intros ev [_ ?].
Qed.

Lemma limiter_free_no_content res :
  List.filter is_rate_limit_call (no_content_calls res) = [].
Proof.
  apply filter_none. eapply Forall_impl; [apply no_content_only_reply |].
  by intros ev [? _].
Qed.

Lemma payloads_respond res statusCode p :
  payloads (respond_calls res statusCode p)
  = if has_json res || has_send res || has_end res then [p] else [].
Proof.
  unfold respond_calls.
  destruct (has_status res), (has_setHeader res), (has_json res), (has_send res),
    (has_end res); reflexivity.
Qed.

Lemma headers_respond res statusCode p :
  omap header_name (respond_calls res statusCode p)
  = if has_setHeader res then [js "Content-Type"] else [].
Proof.
  unfold respond_calls.
  destruct (has_status res), (has_setHeader res), (has_json res), (has_send res),
    (has_end res); reflexivity.
Qed.

Lemma headers_no_content res : omap header_name (no_content_calls res) = [].
Proof. unfold no_content_calls. destruct (has_status res), (has_end res); reflexivity. Qed.

(** The new calls of the handler, by the table of outcomes. *)
Lemma new_calls_outcome cfg req res w st :
  new_calls cfg req res w st
  = drop (length (calls st)) (calls (outcome_of cfg req res w st).2).
Proof. unfold new_calls. by rewrite handler_outcome. Qed.

End CallFacts.
Import CallFacts.

(** ** The reply writer *)


(** ** Effects of one invocation *)



(** ** The exits before and after the rate limiter *)

Module ExitFacts.

Lemma exit_before_limiter cfg req w st :
  before_limiter (exit_of cfg req w st)
  = negb (origin_admitted cfg req && method_admitted req).
Proof.
  unfold exit_of, method_admitted.
  destruct (origin_admitted cfg req); [| done].
  destruct (bool_decide (method req = Some (js "OPTIONS"))); [done |].
  destruct (truthy_opt (method req) && _); [done |].
  cbn [negb andb].
  repeat match goal with
         | |- context [if ?b then _ else _] => destruct b
         | |- context [match ?x with _ => _ end] => destruct x
         end; reflexivity.
Qed.

Lemma exit_origin_rejected cfg req w st :
  exit_of cfg req w st = OriginRejected ↔ origin_admitted cfg req = false.
Proof.
  unfold exit_of. destruct (origin_admitted cfg req); [| done].
  cbn [negb]. split; [| done]. repeat case_match; done.
Qed.

(** The store and the limiter calls of an invocation that ends before the
    rate limiter, and of one that goes through it. *)
Lemma handler_store_early cfg req res w st :
  origin_admitted cfg req && method_admitted req = false →
  rateLimitStore (handler cfg req res w st).2 = rateLimitStore st
  ∧ List.filter is_rate_limit_call (new_calls cfg req res w st) = [].
Proof.
  intros E.
  pose proof (handler_outcome cfg req res w st) as Ho. unfold outcome_of in Ho.
  pose proof (exit_before_limiter cfg req w st) as Hb. rewrite E in Hb.
  destruct (exit_of cfg req w st); try done;
    rewrite (new_calls_app _ _ _ _ _ _ _ _ Ho), Ho;
    by rewrite ?List.filter_app, ?limiter_free_cors, ?limiter_free_no_content,
         ?limiter_free_respond.
Qed.

Lemma handler_store_late cfg req res w st :
  origin_admitted cfg req && method_admitted req = true →
  rateLimitStore (handler cfg req res w st).2 = (rate_check cfg req w st).2
  ∧ List.filter is_rate_limit_call (new_calls cfg req res w st)
    = [RateLimitCall (getClientKey req) (Date_now w)].
Proof.
  intros E.
  pose proof (handler_outcome cfg req res w st) as Ho. unfold outcome_of in Ho.
  pose proof (exit_before_limiter cfg req w st) as Hb. rewrite E in Hb.
  destruct (exit_of cfg req w st); try done; cbv zeta in Ho;
    rewrite (new_calls_app _ _ _ _ _ _ _ _ Ho), Ho;
    (split; [done |]);
    by rewrite ?List.filter_app, ?limiter_free_cors, ?limiter_free_respond.
Qed.

(** Past the origin and method checks, the rate limiter decides. *)
Lemma exit_rate_limited cfg req w st :
  origin_admitted cfg req && method_admitted req = true →
  (exit_of cfg req w st = RateLimited ↔ (rate_check cfg req w st).1 = false).
Proof.
  intros [E1 E2]%andb_true_iff. unfold exit_of. rewrite E1, E2.
  destruct (method_admitted_spec req E2) as [-> _]. cbn [negb].
  destruct (rate_check cfg req w st).1; cbn [negb]; [| done].
  split; [| done]. repeat case_match; done.
Qed.

End ExitFacts.
Import ExitFacts.

(** ** One invocation of the handler *)

(** X10.  One invocation answers at most once.  Either the handler ends
    with an exception and has then set no status and written no payload, or
    it completes and has set the status code exactly once and written at
    most one payload.  It calls [fetch] at most once and the rate limiter at
    most once, and it only appends to the log of calls. *)
Theorem handler_single_reply cfg req res w st :
  let out := handler cfg req res w st in
  let emitted := new_calls cfg req res w st in
  calls out.2 = calls st ++ emitted
  ∧ ((∃ e, out.1 = Thrown e) ∧ statuses emitted = [] ∧ payloads emitted = []
     ∨ (out.1 = Returned ∨ out.1 = Value ())
       ∧ (∃ statusCode, statuses emitted = [statusCode])
       ∧ (length (payloads emitted) ≤ 1)%nat)
  ∧ (length (List.filter is_fetch_call emitted) ≤ 1)%nat
  ∧ (length (List.filter is_rate_limit_call emitted) ≤ 1)%nat.
Proof.
  intros out emitted. subst out emitted.
  pose proof (handler_outcome cfg req res w st) as Ho. unfold outcome_of in Ho.
  assert (∀ statusCode p, (length (payloads (respond_calls res statusCode p)) ≤ 1)%nat)
    as Hp.
  { intros statusCode p. rewrite payloads_respond. destruct (_ || _); simpl; lia. }
  destruct (exit_of cfg req w st) as [| | | | | | | | apiKey userQuery];
    cbv zeta in Ho; rewrite (new_calls_app _ _ _ _ _ _ _ _ Ho), Ho;
    cbn [fst snd calls];
    (split; [done |]);
    rewrite ?statuses_app, ?payloads_app, ?List.filter_app, ?statuses_respond,
      ?statuses_cors, ?statuses_no_content, ?payloads_cors, ?payloads_no_content,
      ?fetch_free_respond, ?limiter_free_respond, ?fetch_free_cors,
      ?limiter_free_cors, ?fetch_free_no_content, ?limiter_free_no_content;
    cbn [statuses payloads omap List.filter is_fetch_call is_rate_limit_call
           app length upstream_call];
    rewrite ?app_nil_r;
    (split; [| by split; lia]).
  6: { left. split; [by eexists | done]. }
  all: right.
  all: try (split; [by left |]; split; [by eexists |]; first [apply Hp | simpl; lia]).
  split; [| split; [by eexists | apply Hp]].
  destruct (upstream_reply_completes
              (fetch w OPENAI_URL (upstream_init cfg apiKey userQuery))); auto.
Qed.

(** X11.  The rate limiter runs after the origin and method checks and
    before the body is looked at.  A request that the origin check or the
    method check turns away (403, the 204 of [OPTIONS], 405) leaves the
    store as it was and makes no limiter call.  Every other request makes
    exactly one limiter call, for its client key at the current time, and
    leaves the store as that check returns it, however the request ends: an
    admitted request is charged its slot also when it is then answered with
    an error or ends with an exception.  The entries of the other client
    keys are never touched. *)
Theorem handler_store_effect cfg req res w st :
  let out := handler cfg req res w st in
  let limiter_calls := List.filter is_rate_limit_call (new_calls cfg req res w st) in
  let key := getClientKey req in
  let recent :=
    RateLimiter.recent_of (RATE_LIMIT_WINDOW_MS cfg) (Date_now w)
      (default [] (rateLimitStore st !! key)) in
  (origin_admitted cfg req && method_admitted req = false →
   rateLimitStore out.2 = rateLimitStore st ∧ limiter_calls = [])
  ∧ (origin_admitted cfg req && method_admitted req = true →
     rateLimitStore out.2 = (rate_check cfg req w st).2
     ∧ limiter_calls = [RateLimitCall key (Date_now w)]
     ∧ (reaches_body cfg req w st = true →
        rateLimitStore out.2 = <[key := recent ++ [Date_now w]]> (rateLimitStore st))
     ∧ (reaches_body cfg req w st = false →
        rateLimitStore out.2 = <[key := recent]> (rateLimitStore st)))
  ∧ (∀ key', key ≠ key' → rateLimitStore out.2 !! key' = rateLimitStore st !! key').
Proof.
  intros out limiter_calls key recent. subst out limiter_calls.
  pose proof (handler_store_early cfg req res w st) as Hearly.
  pose proof (handler_store_late cfg req res w st) as Hlate.
  split; [exact Hearly |]. split.
  - intros E. destruct (Hlate E) as [Hs Hl].
    split; [done |]. split; [done |]. rewrite Hs.
    unfold reaches_body. rewrite E. simpl andb. unfold rate_check.
    unfold RateLimiter.takeRateLimitSlot. fold key. fold recent.
    case_bool_decide; simpl; by split.
  - intros key' Hk.
    destruct (origin_admitted cfg req && method_admitted req) eqn:E.
    + destruct (Hlate eq_refl) as [-> _]. by apply RateLimiterFacts.take_other.
    + by destruct (Hearly eq_refl) as [-> _].
Qed.

Lemma handler_store_effect_witness :
  let req := post (js "{query: soup") in
  statuses (new_calls cfg0 req full_reply (offline None) fresh) = [400]
  ∧ rateLimitStore (handler cfg0 req full_reply (offline None) fresh).2
    = {[ js "203.0.113.7" := [1000] ]}.
Proof.
  intros req. split; [vm_compute; reflexivity |].
  destruct (handler_store_effect cfg0 req full_reply (offline None) fresh)
    as (_ & H & _).
  destruct (H eq_refl) as (_ & _ & H' & _).
  rewrite H' by (vm_compute; reflexivity). vm_compute. reflexivity.
Defined.

(** ** The query stage *)

Module QueryFacts.

Lemma get_prop_null name : get_prop JNull name = None.
Proof. reflexivity. Qed.

Lemma is_null_false_iff v : is_null v = false ↔ v ≠ JNull.
Proof. by destruct v. Qed.

(** The query stage throws exactly on a truthy value that is not a
    string. *)
Lemma query_of_none body :
  query_of body = None
  ↔ ∃ v, get_prop body (js "query") = Some v
         ∧ Json.truthy v = true ∧ is_string (Some v) = false.
Proof.
  unfold query_of. destruct (get_prop body (js "query")) as [v |].
  - destruct (Json.truthy v) eqn:Ht.
    + destruct v; split; try done; try (intros _; by eexists);
        by intros (v' & [= <-] & _ & ?).
    + split; [done |]. intros (v' & [= <-] & ? & _). congruence.
  - split; [done | by intros (v & ? & _)].
Qed.

(** The query stage passes a non-empty text on exactly for a string with a
    code unit that [trim] keeps. *)
Lemma query_of_some body userQuery :
  query_of body = Some userQuery → userQuery ≠ [] →
  ∃ q, get_prop body (js "query") = Some (JStr q) ∧ userQuery = trim q.
Proof.
  unfold query_of. destruct (get_prop body (js "query")) as [v |]; [| congruence].
  destruct (Json.truthy v); [| congruence].
  destruct v; try done. intros [= <-] _. by eexists.
Qed.

Lemma reaches_body_exit cfg req w st :
  reaches_body cfg req w st = true
  ↔ before_limiter (exit_of cfg req w st) = false
    ∧ exit_of cfg req w st ≠ RateLimited.
Proof.
  rewrite exit_before_limiter. unfold reaches_body.
  destruct (origin_admitted cfg req && method_admitted req) eqn:E; simpl.
  - destruct (rate_check cfg req w st).1 eqn:Hr.
    + split; [| done]. intros _. split; [done |].
      rewrite exit_of_body by (unfold reaches_body; by rewrite E, Hr).
      repeat case_match; done.
    + split; [done |]. intros [_ H]. contradict H.
      apply andb_true_iff in E as [E1 E2].
      unfold exit_of. rewrite E1, E2, Hr.
      by destruct (method_admitted_spec req E2) as [-> _].
  - split; [done | by intros [? _]].
Qed.

(** What it takes to reach the upstream call. *)
Lemma exit_upstream_inv cfg req w st apiKey userQuery :
  exit_of cfg req w st = UpstreamCalled apiKey userQuery →
  reaches_body cfg req w st = true
  ∧ OPENAI_API_KEY w = Some apiKey ∧ apiKey ≠ []
  ∧ userQuery ≠ []
  ∧ ∃ q, get_prop (parseBody req) (js "query") = Some (JStr q) ∧ userQuery = trim q.
Proof.
  intros He.
  assert (reaches_body cfg req w st = true) as Hr.
  { apply reaches_body_exit. by rewrite He. }
  split; [done |]. rewrite exit_of_body in He by done.
  destruct (is_null (parseBody req)); [done |].
  destruct (query_of (parseBody req)) as [q |] eqn:Hq; [| done].
  destruct q as [| c q]; [done |]. simpl in He.
  destruct (OPENAI_API_KEY w) as [[| d k] |]; try done.
  injection He as <- <-. repeat split; try done.
  by apply query_of_some.
Qed.

End QueryFacts.
Import QueryFacts.

(** ** The query stage *)

(** X12.  The handler ends with an exception, its promise rejecting, in
    exactly one circumstance: the request has passed the origin, method and
    rate-limit checks and the [query] member of its body is a truthy value
    that is not a string (a number other than zero, [true], an array, an
    object).  The exception is then the [TypeError] of calling [trim].  In
    every other circumstance the handler completes. *)
Theorem handler_rejects_iff cfg req res w st e :
  (handler cfg req res w st).1 = Thrown e
  ↔ e = TypeError_not_a_function (js "trim")
    ∧ reaches_body cfg req w st = true
    ∧ ∃ v, get_prop (parseBody req) (js "query") = Some v
           ∧ Json.truthy v = true ∧ is_string (Some v) = false.
Proof.
  rewrite handler_throws_iff. split.
  - intros [He ->]. split; [done |].
    assert (reaches_body cfg req w st = true) as Hr.
    { apply reaches_body_exit. by rewrite He. }
    split; [done |]. rewrite exit_of_body in He by done.
    apply query_of_none.
    destruct (is_null (parseBody req)); [done |].
    destruct (query_of (parseBody req)) as [q |]; [| done].
    destruct (negb (JsString.truthy q)); [done |].
    by destruct (OPENAI_API_KEY w) as [[| c k] |].
  - intros (-> & Hr & Hv). split; [| done].
    rewrite exit_of_body by done.
    assert (is_null (parseBody req) = false) as ->.
    { destruct Hv as (v & Hv & _). by destruct (parseBody req). }
    by apply query_of_none in Hv as ->.
Qed.

Lemma handler_rejects_iff_witness :
  let req := post (jsq "{'query':[1]}") in
  (handler cfg0 req full_reply (offline None) fresh).1
  = Thrown (TypeError_not_a_function (js "trim")).
Proof.
  intros req.
  apply (handler_rejects_iff cfg0 req full_reply (offline None) fresh).
  split; [reflexivity |]. split; [vm_compute; reflexivity |].
  exists (JArr [JNum 1 0]). split; [vm_compute; reflexivity |]. by split.
Defined.

(** X13.  Only an object body with a string [query] that keeps a code unit
    after trimming passes the query stage.  A request that reaches the body
    stage with a body other than [null] is answered 400 "Query is
    required." when the body is not an object (an array, a string, a number
    or a boolean has no [query]), when the object has no [query] member,
    when the member is falsy ([null], [false], zero, the empty string), or
    when it is a string of white space only. *)
Theorem query_required cfg req res w st :
  reaches_body cfg req w st = true →
  parseBody req ≠ JNull →
  (∀ members, parseBody req ≠ JObj members)
  ∨ get_prop (parseBody req) (js "query") = None
  ∨ (∃ v, get_prop (parseBody req) (js "query") = Some v ∧ Json.truthy v = false)
  ∨ (∃ s, get_prop (parseBody req) (js "query") = Some (JStr s) ∧ all_space s) →
  handler cfg req res w st
  = (Returned,
     answered_early cfg req res w st 400 (ErrorBody (js "Query is required.") None)).
Proof.
  intros Hr Hn Hq.
  rewrite handler_outcome. unfold outcome_of. rewrite exit_of_body by done.
  apply is_null_false_iff in Hn as ->.
  assert (query_of (parseBody req) = Some []) as ->; [| reflexivity].
  unfold query_of.
  destruct Hq as [Hq | [-> | [(v & -> & ->) | (s & -> & Hs)]]]; try done.
  - destruct (parseBody req) as [| | | | |members]; try done. by destruct (Hq members).
  - destruct (Json.truthy (JStr s)); [| done]. by rewrite trim_all_space.
Qed.

Lemma query_required_witness :
  handler cfg0 (post (jsq "{'query':'  '}")) full_reply (offline None) fresh
  = (Returned,
     answered_early cfg0 (post (jsq "{'query':'  '}")) full_reply (offline None) fresh
       400 (ErrorBody (js "Query is required.") None))
  ∧ handler cfg0 (post (jsq "['soup']")) full_reply (offline None) fresh
    = (Returned,
       answered_early cfg0 (post (jsq "['soup']")) full_reply (offline None) fresh
         400 (ErrorBody (js "Query is required.") None)).
Proof.
  split.
  - apply query_required; [vm_compute; reflexivity | vm_compute; discriminate |].
    right. right. right. exists (js "  ").
    split; [vm_compute; reflexivity |]. repeat constructor.
  - apply query_required; [vm_compute; reflexivity | vm_compute; discriminate |].
    left. intros members. vm_compute. discriminate.
Defined.

(** ** The upstream call *)

(** X14.  The [catch] of the handler turns every failure of the upstream
    exchange into the 500 "Unable to complete ranking request." payload
    carrying the message of what was caught, the handler completing: a
    [fetch] that rejects, a response whose body cannot be read (whatever its
    status), a successful response whose body is not JSON, a completion
    content that is neither absent, [null] nor a string, and a completion
    whose cleaned text is the JSON document [null]. *)
Theorem upstream_failure_caught cfg req res w st apiKey userQuery :
  exit_of cfg req w st = UpstreamCalled apiKey userQuery →
  let fr := fetch w OPENAI_URL (upstream_init cfg apiKey userQuery) in
  let caught e :=
    handler cfg req res w st
    = (Value (),
       answered_upstream cfg req res w st apiKey userQuery 500
         (ErrorBody (js "Unable to complete ranking request.") (Some (MessageOf e)))) in
  (∀ e, fr = FetchRejects e → caught e)
  ∧ (∀ r e, fr = FetchResolves r → body_text r = inl e → caught e)
  ∧ (∀ r text,
       fr = FetchResolves r → body_text r = inr text → ok r = true →
       (JSON_parse text = None → caught SyntaxError)
       ∧ (∀ data,
            JSON_parse text = Some data →
            (∀ v, completion_content data = Some v → v ≠ JNull →
                  is_string (Some v) = false →
                  caught (TypeError_not_a_function (js "trim")))
            ∧ (∀ content,
                 completion_content data = Some (JStr content) →
                 trim content ≠ [] →
                 JSON_parse (trim (strip_fences (trim content))) = Some JNull →
                 caught (TypeError_property_of_null (js "primary"))))).
Proof.
  intros He fr caught. subst fr caught. cbv beta.
  pose proof (handler_upstream cfg req res w st apiKey userQuery He) as H.
  cbv zeta in H.
  split; [| split].
  - intros e Hf. by rewrite Hf in H.
  - intros r e Hf Hb. rewrite Hf in H. unfold upstream_reply in H. by rewrite Hb in H.
  - intros r text Hf Hb Hok. rewrite Hf in H. unfold upstream_reply in H.
    rewrite Hb, Hok in H. simpl negb in H. cbv iota in H. split.
    + intros Hp. by rewrite Hp in H.
    + intros data Hp. rewrite Hp in H. split.
      * intros v Hc Hn Hs. rewrite Hc in H. by destruct v.
      * intros content Hc Ht Hj. rewrite Hc in H.
        rewrite (truthy_nonempty _ Ht) in H. simpl negb in H. cbv iota in H.
        by rewrite Hj in H.
Qed.

Lemma upstream_failure_caught_witness :
  handler cfg0 ask full_reply (offline (Some (js "sk-test"))) fresh
  = (Value (),
     answered_upstream cfg0 ask full_reply (offline (Some (js "sk-test"))) fresh
       (js "sk-test") (js "chicken soup") 500
       (ErrorBody (js "Unable to complete ranking request.")
          (Some (MessageOf (Rejected (js "fetch failed")))))).
Proof.
  assert (exit_of cfg0 ask (offline (Some (js "sk-test"))) fresh
          = UpstreamCalled (js "sk-test") (js "chicken soup")) as He.
  { vm_compute. reflexivity. }
  destruct (upstream_failure_caught cfg0 ask full_reply _ fresh _ _ He) as (H & _).
  apply H. reflexivity.
Defined.

(** X15.  The handler calls [fetch] only for a request that has passed the
    origin, method and rate-limit checks, with a credential that is a
    non-empty string and a [query] that is a string with a code unit left
    after trimming.  The call goes to the completions endpoint with method
    [POST], the credential after [Bearer ] in the [Authorization] header,
    and the payload built from the trimmed query. *)
Theorem upstream_request_shape cfg req res w st url init :
  FetchCall url init ∈ new_calls cfg req res w st →
  ∃ apiKey q,
    reaches_body cfg req w st = true
    ∧ OPENAI_API_KEY w = Some apiKey ∧ apiKey ≠ []
    ∧ get_prop (parseBody req) (js "query") = Some (JStr q) ∧ trim q ≠ []
    ∧ url = js "https://api.openai.com/v1/chat/completions"
    ∧ init = FetchInit (js "POST")
               [(js "Content-Type", js "application/json");
                (js "Authorization", js "Bearer " ++ apiKey)]
               (chat_payload cfg (trim q)).
Proof.
  intros H.
  assert (∀ l, FetchCall url init ∈ l → List.filter is_fetch_call l ≠ []) as Hin.
  { intros l Hl E.
    assert (FetchCall url init ∈ List.filter is_fetch_call l) as Hf.
    { apply list_elem_of_In, List.filter_In. by split; [apply list_elem_of_In |]. }
    rewrite E in Hf. by apply elem_of_nil in Hf. }
  pose proof (handler_outcome cfg req res w st) as Ho. unfold outcome_of in Ho.
  destruct (exit_of cfg req w st) as [| | | | | | | | apiKey userQuery] eqn:He;
    cbv zeta in Ho; rewrite (new_calls_app _ _ _ _ _ _ _ _ Ho) in H.
  1-8: apply Hin in H; contradict H;
       rewrite ?List.filter_app, ?fetch_free_cors, ?fetch_free_respond,
         ?fetch_free_no_content; reflexivity.
  destruct (exit_upstream_inv _ _ _ _ _ _ He) as (Hr & Hk & Hne & Hq & q & Hg & ->).
  exists apiKey, q. repeat split; try done.
  all: rewrite !elem_of_app in H; destruct H as [H | [H | [H | H]]].
  all: try (apply Hin in H; contradict H;
            rewrite ?fetch_free_cors, ?fetch_free_respond; reflexivity).
  all: apply list_elem_of_singleton in H; try discriminate.
  all: by injection H as -> ->.
Qed.

Lemma upstream_request_shape_witness :
  ∃ apiKey q,
    OPENAI_API_KEY (offline (Some (js "sk-test"))) = Some apiKey
    ∧ get_prop (parseBody ask) (js "query") = Some (JStr q)
    ∧ upstream_init cfg0 (js "sk-test") (js "chicken soup")
      = FetchInit (js "POST")
          [(js "Content-Type", js "application/json");
           (js "Authorization", js "Bearer " ++ apiKey)]
          (chat_payload cfg0 (trim q)).
Proof.
  assert (FetchCall OPENAI_URL (upstream_init cfg0 (js "sk-test") (js "chicken soup"))
          ∈ new_calls cfg0 ask full_reply (offline (Some (js "sk-test"))) fresh) as H.
  { vm_compute. apply list_elem_of_further, list_elem_of_here. }
  destruct (upstream_request_shape _ _ _ _ _ _ _ H)
    as (apiKey & q & _ & Hk & _ & Hq & _ & _ & Hi).
  by exists apiKey, q.
Defined.

(** ** The prompt, the body text and the fences *)

Module TextFacts.

Lemma split_cons_sep sep s : split sep (sep :: s) = [] :: split sep s.
Proof. simpl. by rewrite N.eqb_refl. Qed.

(** Lines joined by the separator and followed by it are read back before
    what follows. *)
Lemma split_join_app sep l rest :
  l ≠ [] → Forall (λ seg, sep ∉ seg) l →
  split sep (join [sep] l ++ sep :: rest) = l ++ split sep rest.
Proof.
  induction l as [| a l IH]; [done |]. intros _ Hl.
  apply Forall_cons in Hl as [Ha Hl].
  destruct l as [| b l]; [by apply split_app_sep |].
  change (join [sep] (a :: b :: l)) with (a ++ [sep] ++ join [sep] (b :: l)).
  rewrite <- !app_assoc. simpl app at 2.
  rewrite split_app_sep by done. simpl. f_equal. by apply IH.
Qed.

Lemma not_elem_of_app_2 {A} (x : A) l1 l2 : x ∉ l1 → x ∉ l2 → x ∉ l1 ++ l2.
Proof. intros H1 H2 [H | H]%elem_of_app; auto. Qed.

(** A text of JSON white space only is not a JSON document. *)
Lemma skip_ws_blank text :
  Forall (λ c, is_json_ws c = true) text → skip_ws text = [].
Proof. induction 1 as [| c text Hc _ IH]; simpl; [done |]. by rewrite Hc. Qed.

Lemma JSON_parse_blank text :
  Forall (λ c, is_json_ws c = true) text → JSON_parse text = None.
Proof.
  intros H. unfold JSON_parse.
  replace (2 * length text + 2)%nat with (S (2 * length text + 1)) by lia.
  simpl parse_value. by rewrite skip_ws_blank.
Qed.

(** The code units a match consumes satisfy the tests of its pattern. *)
Lemma starts_with_take p : ∀ s,
  starts_with p s = true → Forall2 (λ (q : N → bool) c, q c = true) p (take (length p) s).
Proof.
  induction p as [| q p IH]; intros s; [constructor |].
  destruct s as [| c s]; [done |]. cbn [starts_with length take].
  intros [Hq Hp]%andb_true_iff. constructor; [done | by apply IH].
Qed.

Lemma fence_json_units :
  Forall (λ q : N → bool, ∀ c, q c = true → fence_unit c = true) fence_json.
Proof.
  unfold fence_json, fence, fence_unit. cbn [app].
  repeat (apply Forall_cons; split;
          [intros c Hc; try rewrite N.eqb_sym in Hc; rewrite Hc, ?orb_true_r; done |]).
  constructor.
Qed.

Lemma fence_units :
  Forall (λ q : N → bool, ∀ c, q c = true → fence_unit c = true) fence.
Proof. pose proof fence_json_units as H. unfold fence_json in H. by apply Forall_app in H as [? _]. Qed.

Lemma matched_units p s :
  Forall (λ q : N → bool, ∀ c, q c = true → fence_unit c = true) p →
  starts_with p s = true →
  Forall (λ c, fence_unit c = true) (take (length p) s).
Proof.
  intros Hp Hs. apply starts_with_take in Hs.
  revert Hp. induction Hs as [| q c p l Hq _ IH]; [constructor |].
  intros [Hc Hp]%Forall_cons. constructor; [by apply Hc | by apply IH].
Qed.

(** The replacement drops fence units only. *)
Lemma replace_fences_keeps s : ∀ k,
  Forall (λ c, fence_unit c = true) (take k s) →
  List.filter (λ c, negb (fence_unit c)) (replace_fences k s)
  = List.filter (λ c, negb (fence_unit c)) s.
Proof.
  induction s as [| c s IH]; intros k Hk; [done |].
  destruct k as [| k].
  - cbn [replace_fences].
    destruct (starts_with fence_json (c :: s)) eqn:Hj.
    + apply (matched_units _ _ fence_json_units) in Hj.
      change (take (length fence_json) (c :: s)) with (c :: take 6 s) in Hj.
      apply Forall_cons in Hj as [Hc Hs].
      rewrite (IH 6%nat Hs). cbn [List.filter]. by rewrite Hc.
    + destruct (starts_with fence (c :: s)) eqn:Hf.
      * apply (matched_units _ _ fence_units) in Hf.
        change (take (length fence) (c :: s)) with (c :: take 2 s) in Hf.
        apply Forall_cons in Hf as [Hc Hs].
        rewrite (IH 2%nat Hs). cbn [List.filter]. by rewrite Hc.
      * cbn [List.filter]. rewrite (IH 0%nat) by constructor. done.
  - cbn [replace_fences]. cbn [take] in Hk. apply Forall_cons in Hk as [Hc Hs].
    rewrite (IH k Hs). cbn [List.filter]. by rewrite Hc.
Qed.

Lemma replace_fences_sublist s : ∀ k, sublist (replace_fences k s) s.
Proof.
  induction s as [| c s IH]; intros k; [constructor |].
  destruct k as [| k]; cbn [replace_fences]; [| by apply sublist_cons].
  repeat case_match; by constructor.
Qed.

End TextFacts.
Import TextFacts.

(** ** The prompt *)

(** X16.  The prompt lists the catalog line by line.  For a catalog that is
    not empty and whose fields hold no line break, the recipe context read
    back line by line is the catalog, one line [id | title | details] per
    recipe in catalog order; and for a query without line break the user
    message of the payload is, line by line: the heading, these lines, an
    empty line, the line with the query, and the closing instruction. *)
Theorem prompt_lines cfg userQuery :
  RECIPES cfg ≠ [] →
  Forall (λ r, 10%N ∉ recipe_line r) (RECIPES cfg) →
  10%N ∉ userQuery →
  split 10 (recipeContext cfg) = map recipe_line (RECIPES cfg)
  ∧ ∃ system content,
      get_prop (chat_payload cfg userQuery) (js "messages")
      = Some (JArr [system; JObj [(js "role", JStr (js "user"));
                                  (js "content", JStr content)]])
      ∧ split 10 content
        = [js "Recipe list:"] ++ map recipe_line (RECIPES cfg)
          ++ [[]; js "User request: " ++ userQuery;
              js "Return JSON exactly with the recipe ids."].
Proof.
  intros Hne Hl Hq.
  assert (map recipe_line (RECIPES cfg) ≠ []) as Hne'.
  { by destruct (RECIPES cfg). }
  assert (Forall (λ seg, 10%N ∉ seg) (map recipe_line (RECIPES cfg))) as Hl'.
  { by apply Forall_map. }
  split; [by apply split_join |].
  eexists _, _. split; [vm_compute lookup_member; reflexivity |].
  cbn [app].
  rewrite split_app_sep by (apply (bool_decide_unpack _); vm_compute; exact I).
  unfold recipeContext. fold recipe_line.
  rewrite split_join_app by done.
  rewrite split_cons_sep.
  rewrite app_assoc.
  rewrite split_app_sep.
  - rewrite split_no_sep; [done |].
    apply (bool_decide_unpack _). vm_compute. exact I.
  - apply not_elem_of_app_2; [| done].
    apply (bool_decide_unpack _). vm_compute. exact I.
Qed.

Lemma prompt_lines_witness :
  split 10 (recipeContext cfg0)
  = [js "R01 | Chicken Soup | classic broth"; js "R02 | Veggie Stew | root vegetables"].
Proof.
  assert (10%N ∉ js "chicken soup") as Hq.
  { apply (bool_decide_unpack _). vm_compute. exact I. }
  assert (Forall (λ r, 10%N ∉ recipe_line r) (RECIPES cfg0)) as Hl.
  { repeat constructor; apply (bool_decide_unpack _); vm_compute; exact I. }
  assert (RECIPES cfg0 ≠ []) as Hne by done.
  destruct (prompt_lines cfg0 (js "chicken soup") Hne Hl Hq) as [H _].
  exact H.
Defined.

(** ** The method check *)

(** X17.  A request without method, or with the empty string as method, is
    handled exactly like a [POST].  Any other method that is not [OPTIONS]
    (the comparison is exact, so [post] in lower case is one) ends with the
    405 payload when the origin is admitted: the CORS headers are set as for
    any admitted request, the rate limiter is not called and the store is
    unchanged. *)
Theorem method_gate cfg req res w st :
  handler cfg (with_method None req) res w st
  = handler cfg (with_method (Some (js "POST")) req) res w st
  ∧ handler cfg (with_method (Some []) req) res w st
    = handler cfg (with_method (Some (js "POST")) req) res w st
  ∧ (∀ m,
       m ≠ [] → m ≠ js "POST" → m ≠ js "OPTIONS" →
       origin_admitted cfg req = true →
       handler cfg (with_method (Some m) req) res w st
       = (Returned,
          State (rateLimitStore st)
            (calls st ++ cors_calls res (origin_of req)
             ++ respond_calls res 405
                  (ErrorBody (js "Method not allowed. Use POST.") None)))).
Proof.
  assert (∀ m,
            bool_decide (m = Some (js "OPTIONS")) = false →
            truthy_opt m && negb (bool_decide (m = Some (js "POST"))) = false →
            handler cfg (with_method m req) res w st
            = handler cfg (with_method (Some (js "POST")) req) res w st) as Hsame.
  { intros m Ho Hp. rewrite !handler_outcome. unfold outcome_of, exit_of.
    unfold method_admitted. cbn [method with_method]. rewrite Ho, Hp.
    rewrite (bool_decide_eq_false_2 (Some (js "POST") = Some (js "OPTIONS"))) by done.
    rewrite (bool_decide_eq_true_2 (Some (js "POST") = Some (js "POST"))) by done.
    rewrite andb_false_r. reflexivity. }
  split; [by apply Hsame |]. split; [by apply Hsame |].
  intros m Hne Hp Ho Hadm.
  rewrite (handler_method_rejected cfg (with_method (Some m) req));
    cbn [method with_method]; try congruence; try reflexivity; by destruct m.
Qed.

Lemma method_gate_witness :
  handler cfg1 (request_of (js "post") (Some (js "https://app.example")) None [])
    bare_reply (offline None) fresh
  = (Returned,
     State ∅
       [ResSetHeader (js "Access-Control-Allow-Origin") (js "https://app.example");
        ResSetHeader (js "Access-Control-Allow-Methods") (js "POST, OPTIONS");
        ResSetHeader (js "Access-Control-Allow-Headers") (js "Content-Type");
        ResSetHeader (js "Vary") (js "Origin");
        ResStatusCode 405;
        ResSetHeader (js "Content-Type") (js "application/json");
        ResEnd (Some (ErrorBody (js "Method not allowed. Use POST.") None))]).
Proof.
  destruct (method_gate cfg1
              (request_of (js "GET") (Some (js "https://app.example")) None [])
              bare_reply (offline None) fresh) as (_ & _ & H).
  apply (H (js "post")); [done | done | done | vm_compute; reflexivity].
Defined.

(** ** The rate limiter inside the handler *)

(** X18.  A request that has passed the origin and method checks while its
    client key already holds as many timestamps inside the window as the
    ceiling allows ends with the 429 payload, whatever its body, the
    credential and the upstream are: the body is not looked at and [fetch]
    is not called.  The key's list is pruned to the timestamps inside the
    window and the denied attempt is not logged in it.  With a ceiling that
    is not positive every such request is denied. *)
Theorem rate_limited_reply cfg req res w st :
  let key := getClientKey req in
  let recent :=
    RateLimiter.recent_of (RATE_LIMIT_WINDOW_MS cfg) (Date_now w)
      (default [] (rateLimitStore st !! key)) in
  origin_admitted cfg req = true →
  method_admitted req = true →
  RATE_LIMIT_MAX cfg ≤ Z.of_nat (length recent) →
  handler cfg req res w st
  = (Returned,
     State (<[key := recent]> (rateLimitStore st))
       (calls st ++ cors_calls res (origin_of req)
        ++ [RateLimitCall key (Date_now w)]
        ++ respond_calls res 429
             (ErrorBody (js "Rate limit exceeded. Please wait a moment and try again.")
                None))).
Proof.
  intros key recent Hadm Hm Hc.
  assert (rate_check cfg req w st = (false, <[key := recent]> (rateLimitStore st)))
    as Hr.
  { unfold rate_check. by apply RateLimiterFacts.take_denied. }
  rewrite handler_rate_limited by (done || by rewrite Hr).
  by rewrite Hr.
Qed.

Lemma rate_limited_reply_witness :
  handler (Config 60000 0 [] catalog) ask full_reply (offline None) fresh
  = (Returned,
     State {[ js "203.0.113.7" := [] ]}
       [RateLimitCall (js "203.0.113.7") 1000;
        ResStatus 429;
        ResSetHeader (js "Content-Type") (js "application/json");
        ResJson
          (ErrorBody (js "Rate limit exceeded. Please wait a moment and try again.")
             None)]).
Proof.
  rewrite (rate_limited_reply (Config 60000 0 [] catalog) ask full_reply
             (offline None) fresh);
    [| vm_compute; reflexivity | vm_compute; reflexivity | vm_compute; discriminate].
  vm_compute. reflexivity.
Defined.

(** ** The body *)

(** X19.  A string body made of JSON white space only, the empty string
    included, is not a JSON document: the normalizer gives [null] and a
    request that reaches the body stage ends with the 400 "Invalid JSON
    body." payload.  The same holds for a streamed body of white space that
    is not empty; only the empty stream is taken as the empty object. *)
Theorem blank_body_invalid cfg req res w st text :
  Forall (λ c, is_json_ws c = true) text →
  req_body req = Some (JStr text)
  ∨ (reads_stream req = true ∧ concat (stream req) = text ∧ text ≠ []) →
  parseBody req = JNull
  ∧ (reaches_body cfg req w st = true →
     handler cfg req res w st
     = (Returned,
        answered_early cfg req res w st 400 (ErrorBody (js "Invalid JSON body.") None))).
Proof.
  intros Hws Hb.
  assert (parseBody req = JNull) as Hn.
  { unfold parseBody, reads_stream in *.
    destruct Hb as [-> | (Hs & Hc & Hne)]; [by rewrite JSON_parse_blank |].
    rewrite Hc. rewrite (truthy_nonempty _ Hne). simpl negb. cbv iota.
    rewrite JSON_parse_blank by done.
    destruct (req_body req) as [[] |]; done. }
  split; [done |]. intros Hr.
  rewrite handler_outcome. unfold outcome_of. rewrite exit_of_body by done.
  by rewrite Hn.
Qed.

Lemma blank_body_invalid_witness :
  parseBody (post []) = JNull
  ∧ parseBody (request_of (js "POST") None None [js " "; [10%N]]) = JNull.
Proof.
  split.
  - destruct (blank_body_invalid cfg0 (post []) full_reply (offline None) fresh [])
      as [H _]; [constructor | by left | exact H].
  - destruct (blank_body_invalid cfg0
                (request_of (js "POST") None None [js " "; [10%N]])
                full_reply (offline None) fresh [32%N; 10%N])
      as [H _]; [by repeat constructor | | exact H].
    right. repeat split; done.
Defined.

(** ** The headers of a reply *)

(** X20.  The four CORS headers are set all together or not at all: they
    are set, in the same order, exactly when the request has a non-empty
    origin that is admitted and the reply object has [setHeader], whatever
    the request then ends with (error replies included, the 403 of a
    rejected origin excluded).  The only other header the handler ever sets
    is [Content-Type], after them and at most once. *)
Theorem cors_headers_all_or_none cfg req res w st :
  let names := omap header_name (new_calls cfg req res w st) in
  let cors :=
    if origin_admitted cfg req && truthy_opt (origin_of req) && has_setHeader res
    then cors_header_names else [] in
  names = cors ∨ names = cors ++ [js "Content-Type"].
Proof.
  intros names cors. subst names cors.
  assert (omap header_name (cors_calls res (origin_of req))
          = if truthy_opt (origin_of req) && has_setHeader res
            then cors_header_names else []) as Hc.
  { unfold cors_calls. by destruct (_ && _). }
  pose proof (handler_outcome cfg req res w st) as Ho. unfold outcome_of in Ho.
  destruct (origin_admitted cfg req) eqn:Hadm.
  - cbn [andb]. rewrite <- Hc.
    destruct (exit_of cfg req w st) as [| | | | | | | | apiKey userQuery] eqn:He;
      [apply exit_origin_rejected in He; congruence | ..];
      cbv zeta in Ho; rewrite (new_calls_app _ _ _ _ _ _ _ _ Ho);
      rewrite ?omap_app, ?headers_no_content, ?headers_respond;
      cbn [omap header_name upstream_call app]; rewrite ?app_nil_r;
      try (destruct (has_setHeader res); [by right | left; by rewrite app_nil_r]);
      try (by left).
  - cbn [andb]. apply (exit_origin_rejected cfg req w st) in Hadm.
    rewrite Hadm in Ho.
    rewrite (new_calls_app _ _ _ _ _ _ _ _ Ho), headers_respond.
    destruct (has_setHeader res); [by right | by left].
Qed.

(** ** The fences *)

(** X21.  Removing the fences removes nothing but backticks and the
    letters of [json]: the result is a subsequence of the text in which
    every other code unit is kept, in order; a text without backtick is
    returned as it is. *)
Theorem strip_fences_removes_fences_only s :
  sublist (strip_fences s) s
  ∧ List.filter (λ c, negb (fence_unit c)) (strip_fences s)
    = List.filter (λ c, negb (fence_unit c)) s
  ∧ (96%N ∉ s → strip_fences s = s).
Proof.
  split; [apply replace_fences_sublist |].
  split; [apply replace_fences_keeps; constructor | apply replace_fences_plain].
Qed.

Lemma strip_fences_removes_fences_only_witness :
  strip_fences (jsq "{'primary':'R01','secondary':['R02','R03']}")
  = jsq "{'primary':'R01','secondary':['R02','R03']}".
Proof.
  destruct (strip_fences_removes_fences_only
              (jsq "{'primary':'R01','secondary':['R02','R03']}")) as (_ & _ & H).
  apply H. apply (bool_decide_unpack _). vm_compute. exact I.
Defined.

(** ** The product guard *)

(** X22.  A click on a guarded link never follows the link by itself: the
    default action is prevented first and the password is asked for.  The
    location is set exactly when the answer is the password, compared as it
    is (no trimming, no case folding), and then to the link's [href], or to
    [shop.html] when the link has no [href] or an empty one; it is never
    set to the empty string.  A dismissed dialog does nothing more; any
    other answer, the empty one included, raises the alert and leaves the
    location alone. *)
Theorem product_guard href answer :
  let did := handleProductClick href answer in
  head did = Some PreventDefault
  ∧ (∀ target,
       SetLocation target ∈ did
       ↔ answer = Some PRODUCT_PASSWORD
         ∧ target = (if truthy_opt href then default [] href else js "shop.html"))
  ∧ (SetLocation [] ∉ did)
  ∧ (∀ message,
       Alert message ∈ did
       ↔ (∃ a, answer = Some a ∧ a ≠ PRODUCT_PASSWORD)
         ∧ message = js "Incorrect password. Please try again.")
  ∧ (answer = None → did = [PreventDefault; Prompt (js "Enter the Product password:")]).
Proof.
  intros did. subst did. unfold handleProductClick.
  split; [done |].
  assert (∀ target,
            SetLocation target
            ∈ [PreventDefault; Prompt (js "Enter the Product password:")]
              ++ match answer with
                 | None => []
                 | Some a =>
                     if bool_decide (a = PRODUCT_PASSWORD) then
                       [SetLocation
                          (if truthy_opt href then default [] href else js "shop.html")]
                     else [Alert (js "Incorrect password. Please try again.")]
                 end
            ↔ answer = Some PRODUCT_PASSWORD
              ∧ target = (if truthy_opt href then default [] href else js "shop.html"))
    as Hset.
  { intros target. destruct answer as [a |]; [case_bool_decide as E |].
    - subst a. split.
      + intros H. repeat (apply elem_of_cons in H as [H | H]; try done).
        * by injection H as ->.
        * by apply elem_of_nil in H.
      + intros [_ ->]. do 2 apply list_elem_of_further. apply list_elem_of_here.
    - split; [| intros [[= ?] _]; done].
      intros H. repeat (apply elem_of_cons in H as [H | H]; try done).
      by apply elem_of_nil in H.
    - split; [| by intros [? _]].
      intros H. repeat (apply elem_of_cons in H as [H | H]; try done).
      by apply elem_of_nil in H. }
  split; [exact Hset |]. split.
  { intros H. apply Hset in H as [_ H].
    destruct href as [[| c h] |]; simpl in H; try done. }
  split.
  - intros message. destruct answer as [a |]; [case_bool_decide as E |].
    + split; [| intros [(a' & [= <-] & ?) _]; done].
      intros H. repeat (apply elem_of_cons in H as [H | H]; try done).
      by apply elem_of_nil in H.
    + split.
      * intros H. repeat (apply elem_of_cons in H as [H | H]; try done).
        -- injection H as ->. split; [by exists a | done].
        -- by apply elem_of_nil in H.
      * intros [_ ->]. do 2 apply list_elem_of_further. apply list_elem_of_here.
    + split; [| by intros [(a & ? & _) _]].
      intros H. repeat (apply elem_of_cons in H as [H | H]; try done).
      by apply elem_of_nil in H.
  - by intros ->.
Qed.

Lemma product_guard_witness :
  handleProductClick (Some (js "catalog.html")) None
  = [PreventDefault; Prompt (js "Enter the Product password:")]
  ∧ SetLocation (js "shop.html") ∈ handleProductClick None (Some (js "Product0001??"))
  ∧ ¬ (∃ target,
         SetLocation target
         ∈ handleProductClick (Some (js "catalog.html")) (Some (js "product0001??"))).
Proof.
  split; [| split].
  - destruct (product_guard (Some (js "catalog.html")) None) as (_ & _ & _ & _ & H).
    by apply H.
  - destruct (product_guard None (Some (js "Product0001??"))) as (_ & H & _).
    by apply H.
  - intros [target H].
    destruct (product_guard (Some (js "catalog.html")) (Some (js "product0001??")))
      as (_ & Hs & _).
    apply Hs in H as [H _]. vm_compute in H. discriminate.
Defined.

(** ** Successive invocations *)

Module ServeFacts.

(** Requests that pass the origin and method checks with the same client
    key drive the rate limiter like successive admission checks. *)
Lemma serve_limiter cfg key jobs : ∀ st,
  Forall (λ job : request * reply * world,
            origin_admitted cfg job.1.1 && method_admitted job.1.1 = true
            ∧ getClientKey job.1.1 = key) jobs →
  let checks :=
    RateLimiter.takeMany (RATE_LIMIT_WINDOW_MS cfg) (RATE_LIMIT_MAX cfg) key
      (map (λ job : request * reply * world, Date_now job.2) jobs)
      (rateLimitStore st) in
  map is_rate_limited (serve cfg jobs st).1 = map negb checks.1
  ∧ rateLimitStore (serve cfg jobs st).2 = checks.2.
Proof.
  induction jobs as [| [[req res] w] jobs IH]; intros st Hj; [done |].
  apply Forall_cons in Hj as [[Hadm Hk] Hj]. cbn [fst snd] in Hadm, Hk.
  destruct (handler_store_late cfg req res w st Hadm) as [Hs _].
  pose proof (exit_rate_limited cfg req w st Hadm) as He.
  specialize (IH (handler cfg req res w st).2 Hj). cbv zeta in IH.
  rewrite Hs in IH. unfold rate_check in IH, He. rewrite Hk in IH, He.
  cbn [serve map RateLimiter.takeMany fst snd].
  destruct (serve cfg jobs (handler cfg req res w st).2) as [exits st'].
  destruct (RateLimiter.takeRateLimitSlot (RATE_LIMIT_WINDOW_MS cfg)
              (RATE_LIMIT_MAX cfg) key (Date_now w) (rateLimitStore st))
    as [admitted store'].
  cbn [fst snd] in IH, He.
  destruct (RateLimiter.takeMany (RATE_LIMIT_WINDOW_MS cfg) (RATE_LIMIT_MAX cfg) key
              (map (λ job : request * reply * world, Date_now job.2) jobs) store')
    as [oks store''].
  cbn [fst snd map] in *. destruct IH as [-> ->]. split; [| done]. f_equal.
  destruct admitted.
  - destruct (exit_of cfg req w st); try done. by destruct He as [? _]; auto.
  - destruct He as [_ ->]; done.
Qed.

(** The status of the reply to an upstream behaviour: one of the handler's
    own, or the relayed status of a response that is not ok. *)
Lemma upstream_reply_status fr :
  (upstream_reply fr).1.2 ∈ own_status_codes
  ∨ ∃ r, fr = FetchResolves r ∧ ok r = false ∧ status r = (upstream_reply fr).1.2.
Proof.
  assert (500 ∈ own_status_codes) as H500 by (apply (bool_decide_unpack _); done).
  assert (502 ∈ own_status_codes) as H502 by (apply (bool_decide_unpack _); done).
  assert (200 ∈ own_status_codes) as H200 by (apply (bool_decide_unpack _); done).
  unfold upstream_reply, failure_reply, empty_reply.
  destruct fr as [e | r]; [by left |].
  destruct (body_text r) as [e | text]; [by left |].
  destruct (ok r) eqn:Hok; cbn [negb]; [| right; by exists r].
  left.
  destruct (JSON_parse text) as [data |]; [| done].
  destruct (completion_content data) as [[| | | content | |] |]; try done.
  destruct (negb (JsString.truthy (trim content))); [done |].
  destruct (JSON_parse (trim (strip_fences (trim content)))) as [parsed |];
    [| done].
  destruct parsed; try done; destruct (_ && _); done.
Qed.

End ServeFacts.
Import ServeFacts.

(** ** Successive invocations *)

(** X23.  The limit holds across invocations.  When requests of one client
    key that pass the origin and method checks are handled one after the
    other, each less than a window after every earlier one and after every
    timestamp the key already holds, the request number [i] (from zero) is
    turned away by the rate limiter exactly when the key's held timestamps
    and the [i] requests before it reach the ceiling, whatever the bodies of
    the requests are and however the earlier ones ended. *)
Theorem serve_burst cfg key jobs st :
  let times := map (λ job : request * reply * world, Date_now job.2) jobs in
  let held := default [] (rateLimitStore st !! key) in
  Forall (λ job : request * reply * world,
            origin_admitted cfg job.1.1 && method_admitted job.1.1 = true
            ∧ getClientKey job.1.1 = key) jobs →
  Forall (λ ts, Forall (λ t, t - ts < RATE_LIMIT_WINDOW_MS cfg) times) held →
  RateLimiter.within_one_window (RATE_LIMIT_WINDOW_MS cfg) times →
  map is_rate_limited (serve cfg jobs st).1
  = map (λ i, bool_decide (RATE_LIMIT_MAX cfg ≤ Z.of_nat (length held + i)))
      (seq 0 (length jobs)).
Proof.
  intros times held Hj Hheld Hw.
  destruct (serve_limiter cfg key jobs st Hj) as [-> _].
  fold times. rewrite RateLimiterFacts.takeMany_burst by done.
  fold held. subst times. rewrite length_map, map_map.
  apply map_ext. intros i. repeat case_bool_decide; done || lia.
Qed.

Lemma serve_burst_witness :
  let at_time now := World now None (λ _ _, FetchRejects (Rejected (js "fetch failed"))) in
  map is_rate_limited
    (serve (Config 60000 2 [] catalog)
       [(ask, full_reply, at_time 1000); (post (js "{"), full_reply, at_time 2000);
        (ask, full_reply, at_time 3000)]
       fresh).1
  = [false; false; true].
Proof.
  intros at_time.
  rewrite (serve_burst (Config 60000 2 [] catalog) (js "203.0.113.7")).
  - vm_compute. reflexivity.
  - repeat constructor; vm_compute; reflexivity.
  - constructor.
  - vm_compute. repeat split; repeat constructor.
Defined.

(** X24.  A client key the store does not hold is admitted whenever the
    ceiling is positive: a request that passes the origin and method checks
    with such a key reaches the body stage, and the store then holds for the
    key the current time alone. *)
Theorem unseen_key_admitted cfg req res w st :
  origin_admitted cfg req = true →
  method_admitted req = true →
  rateLimitStore st !! getClientKey req = None →
  0 < RATE_LIMIT_MAX cfg →
  reaches_body cfg req w st = true
  ∧ rateLimitStore (handler cfg req res w st).2
    = <[getClientKey req := [Date_now w]]> (rateLimitStore st).
Proof.
  intros Hadm Hm Hk HC.
  assert (rate_check cfg req w st
          = (true, <[getClientKey req := [Date_now w]]> (rateLimitStore st))) as Hr.
  { unfold rate_check. rewrite RateLimiterFacts.take_admitted; rewrite Hk; [done |].
    simpl. lia. }
  split; [unfold reaches_body; by rewrite Hadm, Hm, Hr |].
  destruct (handler_store_late cfg req res w st) as [-> _]; [by rewrite Hadm, Hm |].
  by rewrite Hr.
Qed.

Lemma unseen_key_admitted_witness :
  reaches_body cfg0 ask (offline None) (State {[ js "198.51.100.9" := [900; 950] ]} [])
  = true.
Proof.
  destruct (unseen_key_admitted cfg0 ask full_reply (offline None)
              (State {[ js "198.51.100.9" := [900; 950] ]} []))
    as [H _]; [vm_compute; reflexivity | vm_compute; reflexivity
              | vm_compute; reflexivity | vm_compute; reflexivity | exact H].
Defined.

(** ** The status codes *)

(** X25.  The status codes of the handler are a closed set.  A status the
    handler sets is 403, 204, 405, 429, 400, 500, 502 or 200, or it is the
    status of an upstream response outside of 200 to 299, relayed as it
    is. *)
Theorem handler_status_codes cfg req res w st statusCode :
  statusCode ∈ statuses (new_calls cfg req res w st) →
  statusCode ∈ own_status_codes
  ∨ ∃ apiKey userQuery r,
      exit_of cfg req w st = UpstreamCalled apiKey userQuery
      ∧ fetch w OPENAI_URL (upstream_init cfg apiKey userQuery) = FetchResolves r
      ∧ ok r = false
      ∧ status r = statusCode.
Proof.
  pose proof (handler_outcome cfg req res w st) as Ho. unfold outcome_of in Ho.
  destruct (exit_of cfg req w st) as [| | | | | | | | apiKey userQuery] eqn:He;
    cbv zeta in Ho; rewrite (new_calls_app _ _ _ _ _ _ _ _ Ho);
    rewrite ?statuses_app, ?statuses_respond, ?statuses_cors, ?statuses_no_content;
    cbn [statuses omap app upstream_call]; intros H.
  1-5, 7-8: left; apply list_elem_of_singleton in H as ->;
            apply (bool_decide_unpack _); done.
  - by apply elem_of_nil in H.
  - apply list_elem_of_singleton in H as ->.
    destruct (upstream_reply_status
                (fetch w OPENAI_URL (upstream_init cfg apiKey userQuery)))
      as [H | (r & Hf & Hok & Hs)]; [by left |].
    right. by exists apiKey, userQuery, r.
Qed.

Lemma handler_status_codes_witness :
  let w := world_of 404 (js "not here") in
  404 ∈ own_status_codes
  ∨ ∃ apiKey userQuery r,
      exit_of cfg0 ask w fresh = UpstreamCalled apiKey userQuery
      ∧ fetch w OPENAI_URL (upstream_init cfg0 apiKey userQuery) = FetchResolves r
      ∧ ok r = false
      ∧ status r = 404.
Proof.
  intros w.
  apply (handler_status_codes cfg0 ask full_reply w fresh).
  vm_compute. apply list_elem_of_here.
Defined.
